(** * newNoise: release-window classification and playlist update

    A shallow embedding of [src/newNoise.py] (class
    [SpotifyNewReleasesTracker]) and [src/database.py] (class
    [ArtistDatabase]).

    - Python [str] values are [string]s of one-byte characters; [len] is
      [String.length].
    - A naive [datetime] is a pair: its proleptic Gregorian ordinal (what
      [date.toordinal()] returns, 0001-01-01 being day 1) and the
      microseconds elapsed since midnight.  [datetime.strptime] builds one
      from a string, [timedelta(days=n)] moves the ordinal.
    - [datetime.now()], [print], the artists table and the calls to
      [playlist_add_items] are effects: they are threaded through a state
      monad over [World].
    - The Spotify client [self.sp] is a record of functions returning the
      catalogue data of one update cycle.
    - The constants of [config.py], which is not part of the sources, are
      parameters.

    Arithmetic on datetimes is total: [datetime.now()] is far from
    [datetime.min] and [datetime.max], and the [OverflowError] Python raises
    beyond them is not modelled. The regular expressions of [strptime] are
    read over ASCII digits. *)

From stdpp Require Import base option strings list sorting gmap pretty.
From Stdlib Require Import ZArith Lia ZifyBool Ascii.
From Stdlib Require String.

#[local] Open Scope Z_scope.

(** ** Calendar arithmetic of the [datetime] module *)

Module Calendar.

(** [datetime._is_leap] *)
Definition is_leap (year : Z) : bool :=
  (year mod 4 =? 0) && (negb (year mod 100 =? 0) || (year mod 400 =? 0)).

(** [datetime._days_before_year]: days before January 1st of [year]. *)
Definition days_before_year (year : Z) : Z :=
  let y := year - 1 in
  y * 365 + y / 4 - y / 100 + y / 400.

(** [datetime._DAYS_IN_MONTH], with February of a leap year. *)
Definition days_in_month (year month : Z) : Z :=
  if (month =? 2) && is_leap year then 29
  else if month =? 2 then 28
  else if (month =? 4) || (month =? 6) || (month =? 9) || (month =? 11) then 30
  else 31.

(** [datetime._DAYS_BEFORE_MONTH]: days of a common year before the first
    of [month]. *)
Definition DAYS_BEFORE_MONTH (month : Z) : Z :=
  match month with
  | 1 => 0 | 2 => 31 | 3 => 59 | 4 => 90 | 5 => 120 | 6 => 151
  | 7 => 181 | 8 => 212 | 9 => 243 | 10 => 273 | 11 => 304 | _ => 334
  end.

(** [datetime._days_before_month] *)
Definition days_before_month (year month : Z) : Z :=
  DAYS_BEFORE_MONTH month + (if (2 <? month) && is_leap year then 1 else 0).

(** [datetime._ymd2ord] *)
Definition ymd2ord (year month day : Z) : Z :=
  days_before_year year + days_before_month year month + day.

End Calendar.

(** ** Naive datetimes *)

Record datetime := Datetime {
  toordinal : Z;      (* date().toordinal() *)
  usec_of_day : Z     (* ((hour*60 + minute)*60 + second)*10^6 + microsecond *)
}.

Definition USEC_PER_DAY : Z := 86400000000.

(** What [datetime.now()] can return: a day of the years 1..9999 and a time
    of day. *)
Definition datetime_wf (t : datetime) : Prop :=
  1 <= toordinal t <= 3652059 /\ 0 <= usec_of_day t < USEC_PER_DAY.

(** [datetime(year, month, day)]: midnight of that day; [None] is the
    [ValueError] the constructor raises on a field out of range. *)
Definition datetime_ymd (year month day : Z) : option datetime :=
  if (1 <=? year) && (year <=? 9999) && (1 <=? month) && (month <=? 12)
     && (1 <=? day) && (day <=? Calendar.days_in_month year month)
  then Some (Datetime (Calendar.ymd2ord year month day) 0)
  else None.

(** Comparison of two datetimes: by day, then by time of day. *)
Definition dt_leb (a b : datetime) : bool :=
  (toordinal a <? toordinal b)
  || ((toordinal a =? toordinal b) && (usec_of_day a <=? usec_of_day b)).

Definition dt_ltb (a b : datetime) : bool :=
  (toordinal a <? toordinal b)
  || ((toordinal a =? toordinal b) && (usec_of_day a <? usec_of_day b)).

(** [t - timedelta(days=n)] and [t + timedelta(days=n)]: the time of day is
    kept. *)
Definition sub_days (t : datetime) (n : Z) : datetime :=
  Datetime (toordinal t - n) (usec_of_day t).

Definition add_days (t : datetime) (n : Z) : datetime :=
  Datetime (toordinal t + n) (usec_of_day t).

(** [t.weekday()]: Monday is 0, Sunday is 6. *)
Definition weekday (t : datetime) : Z := (toordinal t + 6) mod 7.

Declare Scope datetime_scope.
Delimit Scope datetime_scope with dt.
Infix "<=?" := dt_leb : datetime_scope.
Infix "<?" := dt_ltb : datetime_scope.

(** ** [datetime.strptime(s, '%Y-%m-%d')]

    [_strptime] turns the format into the regular expression
    [(?P<Y>\d\d\d\d)-(?P<m>1[0-2]|0[1-9]|[1-9])-(?P<d>3[0-1]|[1-2]\d|0[1-9]|[1-9]| [1-9])],
    matches it at the start of the string, raises [ValueError] when it does
    not match or when it stops before the end of the string, and then
    builds the date, which raises [ValueError] for a day that does not
    exist. Each function below matches one group and returns its value with
    the rest of the string. *)

Module Strptime.

Definition digit (c : ascii) : option Z :=
  let n := Z.of_N (N_of_ascii c) in
  if (48 <=? n) && (n <=? 57) then Some (n - 48) else None.

Definition in_range (lo hi : Z) (c : ascii) : option Z :=
  v ← digit c; if (lo <=? v) && (v <=? hi) then Some v else None.

(** [(?P<Y>\d\d\d\d)] *)
Definition group_Y (s : string) : option (Z * string) :=
  match s with
  | String a (String b (String c (String d rest))) =>
      va ← digit a; vb ← digit b; vc ← digit c; vd ← digit d;
      Some (1000 * va + 100 * vb + 10 * vc + vd, rest)
  | _ => None
  end.

(** The literal [-] of the format. *)
Definition dash (s : string) : option string :=
  match s with
  | String c rest => if Ascii.eqb c "-" then Some rest else None
  | EmptyString => None
  end.

(** One alternative made of two characters, the first fixed. *)
Definition two (c1 : ascii) (lo hi : Z) (s : string) : option (Z * string) :=
  match s with
  | String a (String b rest) =>
      va ← digit a; vb ← in_range lo hi b;
      if Ascii.eqb a c1 then Some (10 * va + vb, rest) else None
  | _ => None
  end.

(** One alternative made of a single character in [[1-9]]. *)
Definition one (s : string) : option (Z * string) :=
  match s with
  | String a rest => va ← in_range 1 9 a; Some (va, rest)
  | EmptyString => None
  end.

(** The first alternative that matches, as the regular expression engine
    tries them from left to right. *)
Fixpoint first_of {A} (alts : list (option A)) : option A :=
  match alts with
  | [] => None
  | Some r :: _ => Some r
  | None :: alts => first_of alts
  end.

(** [(?P<m>1[0-2]|0[1-9]|[1-9])]. The group is followed by a literal [-]:
    when [1[0-2]] matches, the shorter alternative [[1-9]] would leave a
    digit in front of that [-], so the engine's backtracking into the
    group never succeeds and the first matching alternative decides. *)
Definition group_m (s : string) : option (Z * string) :=
  first_of [two "1" 0 2 s; two "0" 1 9 s; one s].

(** [ [1-9]]: a space and a digit. *)
Definition space_one (s : string) : option (Z * string) :=
  match s with
  | String a rest => if Ascii.eqb a " " then one rest else None
  | EmptyString => None
  end.

(** [(?P<d>3[0-1]|[1-2]\d|0[1-9]|[1-9]| [1-9])], the last group of the
    expression. *)
Definition group_d (s : string) : option (Z * string) :=
  first_of [two "3" 0 1 s; two "1" 0 9 s; two "2" 0 9 s; two "0" 1 9 s;
            one s; space_one s].

(** [datetime.strptime(s, '%Y-%m-%d')]; [None] is [ValueError]. *)
Definition strptime (s : string) : option datetime :=
  '(year, s) ← group_Y s;
  s ← dash s;
  '(month, s) ← group_m s;
  s ← dash s;
  '(day, s) ← group_d s;
  match s with
  | EmptyString => datetime_ymd year month day
  | String _ _ => None      (* unconverted data remains *)
  end.

End Strptime.

(** ** The world the program runs in *)

(** A row of the [artists] table. The column [date_added] is left out: no
    statement of the program reads it. *)
Record artist_row := ArtistRow {
  row_id : string;
  row_name : string;
  row_url : string
}.

(** The file [artists.db]: its rows in insertion order, and the
    [sqlite3.Error] every statement raises while the file cannot be used
    (locked, unreadable, full disk), if any. *)
Record Database := {
  db_rows : list artist_row;
  db_fault : option string
}.

Record World := {
  clock : nat → datetime;     (* the values successive datetime.now() calls return *)
  ticks : nat;                (* how many of them were consumed *)
  stdout : list string;       (* lines printed, oldest first *)
  artists_db : Database;
  added_items : list (string * list string)
                              (* sp.playlist_add_items(playlist, batch) calls, oldest first *)
}.

Definition with_ticks (n : nat) (w : World) : World :=
  {| clock := clock w; ticks := n; stdout := stdout w;
     artists_db := artists_db w; added_items := added_items w |}.

Definition with_stdout (out : list string) (w : World) : World :=
  {| clock := clock w; ticks := ticks w; stdout := out;
     artists_db := artists_db w; added_items := added_items w |}.

Definition with_rows (rows : list artist_row) (w : World) : World :=
  {| clock := clock w; ticks := ticks w; stdout := stdout w;
     artists_db := {| db_rows := rows; db_fault := db_fault (artists_db w) |};
     added_items := added_items w |}.

Definition with_added_items (calls : list (string * list string)) (w : World) : World :=
  {| clock := clock w; ticks := ticks w; stdout := stdout w;
     artists_db := artists_db w; added_items := calls |}.

(** A method is a state transformer over the world. *)
Definition M (A : Type) : Type := World → A * World.

#[export] Instance M_ret : MRet M := λ A (a : A) (w : World), (a, w).
#[export] Instance M_bind : MBind M :=
  λ A B (f : A → M B) (m : M A) (w : World), let '(a, w') := m w in f a w'.

(** [datetime.now()] *)
Definition datetime_now : M datetime :=
  λ w, (clock w (ticks w), with_ticks (S (ticks w)) w).

(** [print(line)] *)
Definition print (line : string) : M unit :=
  λ w, (tt, with_stdout (stdout w ++ [line]) w).

(** [for x in xs: body], the loop's local variables being threaded as
    [acc]. *)
Fixpoint for_in {A S : Type} (xs : list A) (body : A → S → M S) (acc : S) : M S :=
  match xs with
  | [] => mret acc
  | x :: xs => acc ← body x acc; for_in xs body acc
  end.

(** [range(start, stop, step)] for a positive [step]. *)
Definition range (start stop step : nat) : list nat :=
  (λ k, start + k * step)%nat <$> seq 0 ((stop - start + step - 1) / step)%nat.

(** [xs[i:j]] for indices that are not negative. *)
Definition slice {A} (xs : list A) (i j : nat) : list A :=
  take (j - i) (drop i xs).

(** ** [database.py]: the artist store *)

Module ArtistDatabase.

(** What a statement does: it completes with a value, or raises
    [sqlite3.Error]. *)
Inductive sqlite (A : Type) : Type :=
| Done (a : A)
| Error (e : string).
Arguments Done {A} a.
Arguments Error {A} e.

Definition has_id (artist_id : string) (rows : list artist_row) : bool :=
  existsb (λ r, String.eqb (row_id r) artist_id) rows.

(** [INSERT OR IGNORE INTO artists (id, name, url) VALUES (?, ?, ?)]: the
    new rows and [cursor.rowcount]. [id] is the primary key, so a row
    whose id is present is ignored. *)
Definition insert_or_ignore (r : artist_row) (db : Database)
    : sqlite (list artist_row * nat) :=
  match db_fault db with
  | Some e => Error e
  | None =>
      if has_id (row_id r) (db_rows db) then Done (db_rows db, 0%nat)
      else Done (db_rows db ++ [r], 1%nat)
  end.

(** [DELETE FROM artists WHERE id = ?] *)
Definition delete_where_id (artist_id : string) (db : Database)
    : sqlite (list artist_row * nat) :=
  match db_fault db with
  | Some e => Error e
  | None =>
      let kept := filter (λ r, row_id r ≠ artist_id) (db_rows db) in
      Done (kept, (length (db_rows db) - length kept)%nat)
  end.

(** [SELECT id, name, url FROM artists]: a scan of the table, the rows in
    the order they were inserted. *)
Definition select_all (db : Database) : sqlite (list artist_row) :=
  match db_fault db with
  | Some e => Error e
  | None => Done (db_rows db)
  end.

(** The order of the index SQLite keeps for [id TEXT PRIMARY KEY]: text is
    compared byte by byte, a proper prefix coming first. *)
Definition id_le (a b : string) : Prop := String.leb a b = true.

#[global] Instance id_le_dec a b : Decision (id_le a b).
Proof. unfold id_le. apply _. Defined.

#[global] Instance id_le_total : Total id_le.
Proof. intros a b. apply String.leb_total. Qed.

(** [SELECT id FROM artists]: the column asked for is the primary key, so
    the statement is answered from its index and the ids come in
    increasing order, not in the order of insertion. *)
Definition select_ids (db : Database) : sqlite (list string) :=
  match db_fault db with
  | Some e => Error e
  | None => Done (merge_sort id_le (row_id <$> db_rows db))
  end.

Definition add_artist (artist_id name url : string) : M bool :=
  λ w,
    match insert_or_ignore (ArtistRow artist_id name url) (artists_db w) with
    | Done (rows, rowcount) => (0 <? rowcount, with_rows rows w)%nat
    | Error e => (_ ← print ("Database error: " +:+ e); mret false) w
    end.

Definition remove_artist (artist_id : string) : M bool :=
  λ w,
    match delete_where_id artist_id (artists_db w) with
    | Done (rows, rowcount) => (0 <? rowcount, with_rows rows w)%nat
    | Error e => (_ ← print ("Database error: " +:+ e); mret false) w
    end.

Definition get_all_artists : M (list (string * string * string)) :=
  λ w,
    match select_all (artists_db w) with
    | Done rows => ((λ r, (row_id r, row_name r, row_url r)) <$> rows, w)
    | Error e => (_ ← print ("Database error: " +:+ e); mret []) w
    end.

Definition get_artist_ids : M (list string) :=
  λ w,
    match select_ids (artists_db w) with
    | Done ids => (ids, w)
    | Error e => (_ ← print ("Database error: " +:+ e); mret []) w
    end.

End ArtistDatabase.

(** ** The Spotify client *)

(** An item of [sp.artist_albums(...)['items']]. *)
Record album := Album {
  album_id : string;
  release_date : string
}.

(** An item of [sp.album_tracks(...)['items']]; [track_artist] is
    [track['artists'][0]['id']], the primary artist. *)
Record track := Track {
  track_id : string;
  track_artist : string
}.

(** What the client answers during one update cycle. *)
Record Spotify := {
  (* sp.artist_albums(artist_id, album_type='album,single', limit=5)['items'] *)
  artist_albums : string → list album;
  (* sp.album_tracks(album_id)['items'] *)
  album_tracks : string → list track;
  (* [item['track']['id'] for item in sp.playlist_tracks(playlist_id, ...)['items']] *)
  playlist_tracks : string → list string
}.

(** [sp.playlist_add_items(playlist_id, batch)] *)
Definition playlist_add_items (playlist_id : string) (batch : list string) : M unit :=
  λ w, (tt, with_added_items (added_items w ++ [(playlist_id, batch)]) w).

(** ** [newNoise.py]: class [SpotifyNewReleasesTracker] *)

Record Tracker := {
  sp : Spotify;
  playlist_id : string;
  archive_playlist_id : string
}.

Section SpotifyNewReleasesTracker.

(** The constants [newNoise.py] takes from [config.py]. *)
Variable ARCHIVE_DAYS : Z.
Variable TRACKS_PER_ARTIST : nat.

Variable self : Tracker.

Import Strptime.

Definition get_recent_tracks : M (list string) :=
  artist_ids ← ArtistDatabase.get_artist_ids;
  recent_tracks ←
    for_in artist_ids (λ artist_id recent_tracks,
      let albums := artist_albums (sp self) artist_id in
      for_in albums (λ album recent_tracks,
        let tracks := album_tracks (sp self) (album_id album) in
        for_in (take TRACKS_PER_ARTIST tracks) (λ track recent_tracks,
          if String.eqb artist_id (track_artist track)
          then mret (recent_tracks ++ [track_id track])
          else mret recent_tracks)
        recent_tracks)
      recent_tracks)
    [];
  mret (take 50 recent_tracks).

Definition is_track_from_current_week (release_date : string) : M bool :=
  today ← datetime_now;
  if (String.length release_date =? 4)%nat then mret false
  else
    match (if (String.length release_date =? 7)%nat
           then strptime (release_date +:+ "-01")
           else strptime release_date) with
    | Some track_date =>
        let track_date := if (today <? track_date)%dt then today else track_date in
        let start_of_week := sub_days today (weekday today) in
        let end_of_week := add_days start_of_week 6 in
        mret ((start_of_week <=? track_date)%dt && (track_date <=? end_of_week)%dt)
    | None =>
        _ ← print ("Warning: Invalid release date format: " +:+ release_date);
        mret false
    end.

Definition _is_within_month (release_date : string) : M bool :=
  today ← datetime_now;
  if (String.length release_date =? 4)%nat then mret false
  else
    match (if (String.length release_date =? 7)%nat
           then strptime (release_date +:+ "-01")
           else strptime release_date) with
    | Some track_date =>
        let track_date := if (today <? track_date)%dt then today else track_date in
        let cutoff := sub_days today ARCHIVE_DAYS in
        mret (cutoff <=? track_date)%dt
    | None => mret false
    end.

Definition _is_within_archive_period (release_date : string) : M bool :=
  today ← datetime_now;
  if (String.length release_date =? 4)%nat then mret false
  else
    match (if (String.length release_date =? 7)%nat
           then strptime (release_date +:+ "-01")
           else strptime release_date) with
    | Some track_date =>
        let track_date := if (today <? track_date)%dt then today else track_date in
        let week_ago := sub_days today 7 in
        let month_ago := sub_days today ARCHIVE_DAYS in
        mret ((month_ago <=? track_date)%dt && (track_date <=? week_ago)%dt)
    | None => mret false
    end.

(** [update_playlist], lines 120-134: the body of
    [for track in tracks['items']], with [new_tracks] and
    [archive_tracks] as the loop's state. *)
Definition update_playlist_track (current_track_ids archive_track_ids : gset string)
    (artist_id release_date : string) (track : track)
    (acc : list string * list string) : M (list string * list string) :=
  let '(new_tracks, archive_tracks) := acc in
  if negb (String.eqb (track_artist track) artist_id)
  then mret (new_tracks, archive_tracks)
  else
    let track_id := track_id track in
    if bool_decide (track_id ∈ current_track_ids)
       || bool_decide (track_id ∈ archive_track_ids)
    then mret (new_tracks, archive_tracks)
    else
      this_week ← is_track_from_current_week release_date;
      if this_week : bool
      then mret (new_tracks ++ [track_id], archive_tracks)
      else
        in_archive ← _is_within_archive_period release_date;
        if in_archive : bool
        then mret (new_tracks, archive_tracks ++ [track_id])
        else mret (new_tracks, archive_tracks).

(** [update_playlist], lines 112-134: the body of
    [for album in albums['items']]. *)
Definition update_playlist_album (current_track_ids archive_track_ids : gset string)
    (artist_id : string) (album : album)
    (acc : list string * list string) : M (list string * list string) :=
  let release_date := release_date album in
  within ← _is_within_month release_date;
  if negb within then mret acc
  else
    let tracks := album_tracks (sp self) (album_id album) in
    for_in tracks
      (update_playlist_track current_track_ids archive_track_ids artist_id release_date)
      acc.

(** [update_playlist], lines 105-134: the body of
    [for artist_id in artist_ids]. *)
Definition update_playlist_artist (current_track_ids archive_track_ids : gset string)
    (artist_id : string)
    (acc : list string * list string) : M (list string * list string) :=
  let albums := artist_albums (sp self) artist_id in
  for_in albums (update_playlist_album current_track_ids archive_track_ids artist_id) acc.

(** [update_playlist], lines 90-134: the membership sets of the two
    playlists, then the loops that fill [new_tracks] and
    [archive_tracks]. *)
Definition update_playlist_collect : M (list string * list string) :=
  let current_tracks := playlist_tracks (sp self) (playlist_id self) in
  let archive_tracks := playlist_tracks (sp self) (archive_playlist_id self) in
  let current_track_ids : gset string := list_to_set current_tracks in
  let archive_track_ids : gset string := list_to_set archive_tracks in
  artist_ids ← ArtistDatabase.get_artist_ids;
  for_in artist_ids (update_playlist_artist current_track_ids archive_track_ids) ([], []).

(** [update_playlist], lines 141-144 and 147-150: [tracks] is added to
    [playlist] in batches of 50; the result is the count of tracks
    added. *)
Definition add_in_batches (playlist : string) (tracks : list string) : M nat :=
  for_in (range 0 (length tracks) 50) (λ i tracks_added,
    let batch := slice tracks i (i + 50) in
    _ ← playlist_add_items playlist batch;
    mret (tracks_added + length batch)%nat)
  0%nat.

Definition update_playlist : M unit :=
  collected ← update_playlist_collect;
  let '(new_tracks, archive_tracks) := collected in
  new_tracks_added ← add_in_batches (playlist_id self) new_tracks;
  archive_tracks_added ← add_in_batches (archive_playlist_id self) archive_tracks;
  _ ← print ("Updated New Noise playlist: " +:+ pretty new_tracks_added
             +:+ " new songs added");
  print ("Updated New Noise Archive playlist: " +:+ pretty archive_tracks_added
         +:+ " new songs added").

End SpotifyNewReleasesTracker.

(** ** Vocabulary of the specification *)

(** The value the next [datetime.now()] returns, and the world once it has
    been read. *)
Definition now (w : World) : datetime := clock w (ticks w).
Definition tick (w : World) : World := with_ticks (S (ticks w)) w.

(** A clock that shows [today] at every reading of the cycle. *)
Definition frozen (today : datetime) (w : World) : Prop := ∀ n, clock w n = today.

Definition frozen_world (today : datetime) : World :=
  {| clock := λ _, today; ticks := 0; stdout := [];
     artists_db := {| db_rows := []; db_fault := None |}; added_items := [] |}.

(** The value a method returns when the clock shows [today]. *)
Definition at_time {A} (today : datetime) (m : M A) : A := (m (frozen_world today)).1.

(** Order on datetimes. *)
Definition dt_le (a b : datetime) : Prop :=
  toordinal a < toordinal b ∨ (toordinal a = toordinal b ∧ usec_of_day a <= usec_of_day b).

Definition dt_lt (a b : datetime) : Prop :=
  toordinal a < toordinal b ∨ (toordinal a = toordinal b ∧ usec_of_day a < usec_of_day b).

(** A day that exists in the years [datetime] covers. *)
Definition valid_date (year month day : Z) : Prop :=
  1 <= year <= 9999 ∧ 1 <= month <= 12
  ∧ 1 <= day <= Calendar.days_in_month year month.

(** Midnight of the day of ordinal [d]. *)
Definition midnight (d : Z) : datetime := Datetime d 0.

(** Precision of a release date, told by its length as the code does. *)
Inductive precision := Year | YearMonth | FullDate.

Definition precision_of (release_date : string) : precision :=
  if (String.length release_date =? 4)%nat then Year
  else if (String.length release_date =? 7)%nat then YearMonth
  else FullDate.

(** Step 1 of the date classifier as the specification words it: a year is
    normalized to its January 1st, a year and month to the first of the
    month, a full date is read as it is; [None] when parsing fails. *)
Definition normalize (release_date : string) : option datetime :=
  match precision_of release_date with
  | Year => Strptime.strptime (release_date +:+ "-01-01")
  | YearMonth => Strptime.strptime (release_date +:+ "-01")
  | FullDate => Strptime.strptime release_date
  end.

(** Step 2: a date in the future is clamped to [today]. *)
Definition clamp (today d : datetime) : datetime :=
  if (today <? d)%dt then today else d.

(** Step 3: Monday of the week of [today], at the time of day of [today]. *)
Definition start_of_week (today : datetime) : datetime :=
  sub_days today (weekday today).

(** A method that only reads the clock and prints: it leaves the clock
    itself, the artists table and the calls made to Spotify as it found
    them. *)
Definition quiet {A} (m : M A) : Prop :=
  ∀ w, clock (m w).2 = clock w
       ∧ artists_db (m w).2 = artists_db w
       ∧ added_items (m w).2 = added_items w.

(** The two lists of the collecting loops together. *)
Definition both (acc : list string * list string) : list string := acc.1 ++ acc.2.

(** The ids and the candidates one track gives when [a] is the artist
    whose albums are visited. *)
Definition track_ids_of (a : string) (t : track) : list string :=
  if decide (track_artist t = a) then [track_id t] else [].

Definition track_candidates (a rd : string) (t : track) : list (string * string) :=
  if decide (track_artist t = a) then [(track_id t, rd)] else [].

(** The batches [add_in_batches] sends for [tracks]. *)
Definition batches (tracks : list string) : list (list string) :=
  (λ i, slice tracks i (i + 50)) <$> range 0 (length tracks) 50.

Section Candidates.

Variable self : Tracker.

Definition current_track_ids : gset string :=
  list_to_set (playlist_tracks (sp self) (playlist_id self)).

Definition archive_track_ids : gset string :=
  list_to_set (playlist_tracks (sp self) (archive_playlist_id self)).

(** No track of the two lists is in a playlist. *)
Definition fresh (acc : list string * list string) : Prop :=
  ∀ id, id ∈ acc.1 ∨ id ∈ acc.2 →
        (id ∉ current_track_ids) ∧ (id ∉ archive_track_ids).

(** The tracks of one album that are credited first to [artist_id], each
    with the release date of the album. *)
Definition album_candidates (artist_id : string) (album : album)
    : list (string * string) :=
  (λ t, (track_id t, release_date album))
    <$> filter (λ t, track_artist t = artist_id)
               (album_tracks (sp self) (album_id album)).

Definition artist_candidates (artist_id : string) : list (string * string) :=
  artist_albums (sp self) artist_id ≫= album_candidates artist_id.

(** The candidates of a cycle in encounter order: track id and release
    date. *)
Definition candidates (artist_ids : list string) : list (string * string) :=
  artist_ids ≫= artist_candidates.

Variable ARCHIVE_DAYS : Z.
Variable today : datetime.

(** A candidate passes the gates of [update_playlist]: its album is
    within the month and its id is in neither playlist. *)
Definition eligible (c : string * string) : Prop :=
  at_time today (_is_within_month ARCHIVE_DAYS (c.2)) = true
  ∧ (c.1 ∉ current_track_ids) ∧ (c.1 ∉ archive_track_ids).

Definition goes_to_new (c : string * string) : Prop :=
  eligible c ∧ at_time today (is_track_from_current_week (c.2)) = true.

Definition goes_to_archive (c : string * string) : Prop :=
  eligible c ∧ at_time today (is_track_from_current_week (c.2)) = false
  ∧ at_time today (_is_within_archive_period ARCHIVE_DAYS (c.2)) = true.

#[export] Instance eligible_dec c : Decision (eligible c).
Proof. unfold eligible. apply _. Defined.
#[export] Instance goes_to_new_dec c : Decision (goes_to_new c).
Proof. unfold goes_to_new. apply _. Defined.
#[export] Instance goes_to_archive_dec c : Decision (goes_to_archive c).
Proof. unfold goes_to_archive. apply _. Defined.

(** The two batches as list comprehensions over the candidates. *)
Definition new_batch (cs : list (string * string)) : list string :=
  (filter goes_to_new cs).*1.

Definition archive_batch (cs : list (string * string)) : list string :=
  (filter goes_to_archive cs).*1.

End Candidates.

(** The id is listed once among the candidates: one track of one album
    carries it. *)
Definition listed_once (id : string) (cs : list (string * string)) : Prop :=
  length (filter (λ c, c.1 = id) cs) = 1%nat.

(** ** Example inputs *)

Module Examples.

#[local] Open Scope string_scope.

(** [datetime(year, month, day, hour, minute, second)] for fields in
    range. *)
Definition datetime_at (year month day hour minute second : Z) : datetime :=
  Datetime (Calendar.ymd2ord year month day)
           (((hour * 60 + minute) * 60 + second) * 1000000).

(** A world at the start of a cycle: nothing printed, nothing added, the
    given clock and the given tracked artists. *)
Definition world_at (c : nat → datetime) (artist_ids : list string) : World :=
  {| clock := c; ticks := 0; stdout := [];
     artists_db := {| db_rows := (λ i, ArtistRow i i "https://open.spotify.com")
                                   <$> artist_ids;
                      db_fault := None |};
     added_items := [] |}.

(** Friday 3 May 2024, Monday 6 May 2024 and Monday 15 January 2024, at
    ten in the morning. *)
Definition friday : datetime := datetime_at 2024 5 3 10 0 0.
Definition monday : datetime := datetime_at 2024 5 6 10 0 0.
Definition mid_january : datetime := datetime_at 2024 1 15 10 0 0.

Definition sunday_night : datetime := datetime_at 2024 5 5 23 59 59.
Definition monday_morning : datetime := datetime_at 2024 5 6 0 0 1.

(** One artist with three albums of forty tracks, released on Thursday
    2 May 2024; both playlists are empty. *)
Definition numbered_tracks (first count : nat) : list track :=
  (λ k, Track ("T" +:+ pretty k) "A1") <$> seq first count.

Definition sp120 : Spotify :=
  {| artist_albums a :=
       if String.eqb a "A1"
       then [Album "al1" "2024-05-02"; Album "al2" "2024-05-02";
             Album "al3" "2024-05-02"]
       else [];
     album_tracks al :=
       if String.eqb al "al1" then numbered_tracks 0 40
       else if String.eqb al "al2" then numbered_tracks 40 40
       else if String.eqb al "al3" then numbered_tracks 80 40
       else [];
     playlist_tracks _ := [] |}.

Definition tracker120 : Tracker :=
  {| sp := sp120; playlist_id := "new-noise";
     archive_playlist_id := "new-noise-archive" |}.

Definition ids120 : list string := (λ k, "T" +:+ pretty k) <$> seq 0 120.

(** One artist whose single of Thursday 2 May 2024 and album of Tuesday
    23 April 2024 both list the track "T1". *)
Definition sp_twice : Spotify :=
  {| artist_albums a :=
       if String.eqb a "A1"
       then [Album "single" "2024-05-02"; Album "lp" "2024-04-23"]
       else [];
     album_tracks al :=
       if String.eqb al "single" then [Track "T1" "A1"]
       else if String.eqb al "lp" then [Track "T1" "A1"; Track "T2" "A1"]
       else [];
     playlist_tracks _ := [] |}.

Definition tracker_twice : Tracker :=
  {| sp := sp_twice; playlist_id := "new-noise";
     archive_playlist_id := "new-noise-archive" |}.

(** One artist with an album of Saturday 4 May 2024, which lists "T1" and
    "T0", and an album of Tuesday 23 April 2024, which lists "T7" and "T8";
    "T0" is in the playlist already and "T8" is credited first to another
    artist. *)
Definition sp_two_albums : Spotify :=
  {| artist_albums a :=
       if String.eqb a "A1"
       then [Album "sat" "2024-05-04"; Album "old" "2024-04-23"]
       else [];
     album_tracks al :=
       if String.eqb al "sat" then [Track "T1" "A1"; Track "T0" "A1"]
       else if String.eqb al "old" then [Track "T7" "A1"; Track "T8" "B2"]
       else [];
     playlist_tracks p := if String.eqb p "new-noise" then ["T0"] else [] |}.

Definition tracker_two_albums : Tracker :=
  {| sp := sp_two_albums; playlist_id := "new-noise";
     archive_playlist_id := "new-noise-archive" |}.

(** A clock that shows Sunday night at its first reading and Monday
    morning afterwards. *)
Definition clock_over_midnight (n : nat) : datetime :=
  match n with O => sunday_night | S _ => monday_morning end.

(** One artist whose first album has a release date that is not a date;
    the album of Saturday 4 May 2024 follows it. *)
Definition sp_bad_date : Spotify :=
  {| artist_albums a :=
       if String.eqb a "A1"
       then [Album "bad" "not-a-date"; Album "sat" "2024-05-04"]
       else [];
     album_tracks al :=
       if String.eqb al "sat" then [Track "T1" "A1"]
       else if String.eqb al "bad" then [Track "T5" "A1"]
       else [];
     playlist_tracks _ := [] |}.

Definition tracker_bad_date : Tracker :=
  {| sp := sp_bad_date; playlist_id := "new-noise";
     archive_playlist_id := "new-noise-archive" |}.

(** The start of a cycle on Friday 3 May 2024 with one tracked artist and
    a clock that does not move. *)
Definition world_friday : World := world_at (λ _, friday) ["A1"].

End Examples.

(** ** Vocabulary for the rest of the program *)

(** The world differs from [w0] by readings of the clock only. *)
Definition only_ticked (w0 w : World) : Prop := w = with_ticks (ticks w) w0.

(** What [get_recent_tracks] collects before its cut at 50: for each
    tracked artist and each album listed for it, the ids of the tracks
    credited first to that artist among the first [TRACKS_PER_ARTIST]
    tracks of the album. *)
Definition recent_track_ids (TRACKS_PER_ARTIST : nat) (self : Tracker)
    (artist_ids : list string) : list string :=
  artist_ids ≫= λ a,
    artist_albums (sp self) a ≫= λ al,
      track_id <$> filter (λ t, track_artist t = a)
                          (take TRACKS_PER_ARTIST (album_tracks (sp self) (album_id al))).

(** ** [newNoise.py]: adding and removing artists by name *)

(** An item of [sp.search(q=artist_name, type='artist')['artists']['items']]:
    [artist['id']] and [artist['external_urls']['spotify']]. *)
Record artist_item := ArtistItem {
  artist_item_id : string;
  artist_item_url : string
}.

Section Menu.

(** [self.sp.search(q=artist_name, type='artist')['artists']['items']] *)
Variable search : string → list artist_item.

(** [str.lower]. The program only compares the images of two names: the
    function is left as a parameter. *)
Variable lower : string → string.

(** [SpotifyNewReleasesTracker.add_artist], lines 51-65. *)
Definition add_artist (artist_name : string) : M bool :=
  let results := search artist_name in
  match results with
  | artist :: _ =>
      let artist_id := artist_item_id artist in
      let artist_url := artist_item_url artist in
      added ← ArtistDatabase.add_artist artist_id artist_name artist_url;
      if added : bool
      then _ ← print ("Adding " +:+ artist_name +:+ " to track..."); mret true
      else _ ← print ("Artist " +:+ artist_name +:+ " already exists in database");
           mret false
  | [] => mret false
  end.

(** A string that is not empty, as [if artist_name:] tests it. *)
Definition truthy (s : string) : bool :=
  match s with EmptyString => false | String _ _ => true end.

(** [main], lines 311-316: the loop of choice 2 over the names typed. *)
Definition main_add_artists (artist_names : list string) : M unit :=
  for_in artist_names (λ artist_name (_ : unit),
    if truthy artist_name
    then
      added ← add_artist artist_name;
      if added : bool
      then print ("Added " +:+ artist_name)
      else print ("Failed to add " +:+ artist_name)
    else mret tt)
  tt.

(** [main], lines 333-340: the loop over [artists] that stops at the first
    artist whose name matches; the result is [found]. *)
Fixpoint main_remove_first_match (artist_name : string)
    (artists : list (string * string * string)) : M bool :=
  match artists with
  | [] => mret false
  | (artist_id, name, _) :: artists =>
      if String.eqb (lower name) (lower artist_name)
      then
        removed ← ArtistDatabase.remove_artist artist_id;
        _ ← (if removed : bool
             then print ("Removed " +:+ name)
             else print ("Failed to remove " +:+ name));
        mret true
      else main_remove_first_match artist_name artists
  end.

(** [main], lines 327-343: choice 4 once the names typed have been split.
    [artists] is read once, before the loop. *)
Definition main_remove_artists (artist_names : list string) : M unit :=
  artists ← ArtistDatabase.get_all_artists;
  for_in artist_names (λ artist_name (_ : unit),
    if negb (truthy artist_name) then mret tt
    else
      found ← main_remove_first_match artist_name artists;
      if negb found
      then print ("Artist '" +:+ artist_name +:+ "' not found")
      else mret tt)
  tt.

End Menu.

(** The first artist of a listing whose name matches [artist_name], if
    any. *)
Definition first_match (lower : string → string) (artist_name : string)
    (artists : list (string * string * string)) : option (string * string * string) :=
  head (filter (λ a, lower (a.1.2) = lower artist_name) artists).

(** The rows of the table as [get_all_artists] returns them. *)
Definition listing (rows : list artist_row) : list (string * string * string) :=
  (λ r, (row_id r, row_name r, row_url r)) <$> rows.

(** The ids that choice 4 asks the store to remove for the names typed:
    for each name that is not empty, the id of its first match in the
    listing read at the start. *)
Definition removal_targets (lower : string → string) (artist_names : list string)
    (artists : list (string * string * string)) : list string :=
  omap (λ artist_name,
          if truthy artist_name
          then (λ a, a.1.1) <$> first_match lower artist_name artists
          else None)
       artist_names.

(** ** [newNoise.py]: [get_new_releases] *)

(** [[x for x in xs if test(x)]] for a test that has effects: the test is
    run on every element, in order. *)
Fixpoint filter_in {A} (xs : list A) (test : A → M bool) : M (list A) :=
  match xs with
  | [] => mret []
  | x :: xs =>
      keep ← test x;
      kept ← filter_in xs test;
      mret (if keep : bool then x :: kept else kept)
  end.

Section NewReleases.

Variable TRACKS_PER_ARTIST : nat.
Variable self : Tracker.

(** [get_new_releases], lines 186-214: the body of
    [for artist_id in batch_ids]. The test [if not albums] is on the
    answer of [sp.artist_albums], an object that always has keys: it never
    holds and is left out. *)
Definition get_new_releases_artist (artist_ids : list string) (artist_id : string)
    (new_tracks : list string) : M (list string) :=
  let albums := artist_albums (sp self) artist_id in
  recent_albums ←
    filter_in albums (λ album, is_track_from_current_week (release_date album));
  match recent_albums with
  | [] => mret new_tracks
  | _ :: _ =>
      let album_ids := album_id <$> recent_albums in
      for_in (range 0 (length album_ids) 20) (λ j new_tracks,
        let batch_album_ids := slice album_ids j (j + 20) in
        for_in batch_album_ids (λ album_id new_tracks,
          let album_tracks := album_tracks (sp self) album_id in
          for_in (take TRACKS_PER_ARTIST album_tracks) (λ track new_tracks,
            if bool_decide (track_artist track ∈ artist_ids)
            then mret (new_tracks ++ [track_id track])
            else mret new_tracks)
          new_tracks)
        new_tracks)
      new_tracks
  end.

(** [get_new_releases]. The list it returns is [list(set(...))], whose
    order Python does not fix: the result is the set. *)
Definition get_new_releases (artist_ids : list string) : M (gset string) :=
  new_tracks ←
    for_in (range 0 (length artist_ids) 20) (λ i new_tracks,
      let batch_ids := slice artist_ids i (i + 20) in
      for_in batch_ids (get_new_releases_artist artist_ids) new_tracks)
    [];
  mret (list_to_set (take 50 new_tracks)).

(** The ids [get_new_releases] collects from albums: those of the tracks,
    among the first [TRACKS_PER_ARTIST] of each album, whose first artist
    is one of [artist_ids]. *)
Definition album_track_ids (artist_ids : list string) (albums : list album)
    : list string :=
  albums ≫= λ al,
    track_id <$> filter (λ t, track_artist t ∈ artist_ids)
                        (take TRACKS_PER_ARTIST (album_tracks (sp self) (album_id al))).

(** All the albums listed for the artists, in the order of the visit. *)
Definition listed_albums (artist_ids : list string) : list album :=
  artist_ids ≫= artist_albums (sp self).

End NewReleases.

(** A release date that [is_track_from_current_week] tries to parse and
    cannot. *)
Definition unparsable (release_date : string) : Prop :=
  precision_of release_date ≠ Year ∧ normalize release_date = None.

#[export] Instance precision_eq_dec : EqDecision precision.
Proof. solve_decision. Defined.

#[export] Instance datetime_eq_dec : EqDecision datetime.
Proof. solve_decision. Defined.

#[export] Instance unparsable_dec rd : Decision (unparsable rd).
Proof. unfold unparsable. apply _. Defined.

(** The world after [is_track_from_current_week] has been called on the
    release date of each of [albums] in turn. *)
Definition after_week_tests (albums : list album) (w : World) : World :=
  with_stdout
    (stdout w ++ ((λ al, "Warning: Invalid release date format: " +:+ release_date al)
                    <$> filter (λ al, unparsable (release_date al)) albums))
    (with_ticks (ticks w + length albums) w).

(** ** Inputs for the menu, the store and [get_new_releases] *)

Module MenuExamples.

Import Examples.
#[local] Open Scope string_scope.

(** The store of one artist when the database file cannot be opened. *)
Definition world_faulty : World :=
  {| clock := λ _, friday; ticks := 0; stdout := [];
     artists_db := {| db_rows := [ArtistRow "A1" "A1" "https://open.spotify.com"];
                      db_fault := Some "unable to open database file" |};
     added_items := [] |}.

(** Wednesday 8 May 2024 at ten in the morning: the album of Saturday
    4 May is of last week and is not seven days old. *)
Definition wednesday : datetime := datetime_at 2024 5 8 10 0 0.
Definition world_wednesday : World := world_at (λ _, wednesday) ["A1"].

(** A search that answers one artist for "Low" and the same artist, then
    another one, for "low". *)
Definition search_by_name (q : string) : list artist_item :=
  if String.eqb q "Low"
  then [ArtistItem "L1" "https://open.spotify.com/artist/L1"]
  else if String.eqb q "low"
  then [ArtistItem "L1" "https://open.spotify.com/artist/L1";
        ArtistItem "L2" "https://open.spotify.com/artist/L2"]
  else [].

(** [str.lower] on ASCII letters. *)
Definition lower_char (c : Ascii.ascii) : Ascii.ascii :=
  let n := Ascii.nat_of_ascii c in
  if (65 <=? n)%nat && (n <=? 90)%nat then Ascii.ascii_of_nat (n + 32) else c.

Fixpoint lower_ascii (s : string) : string :=
  match s with
  | EmptyString => EmptyString
  | String c s => String (lower_char c) (lower_ascii s)
  end.

End MenuExamples.

(** ** Calendar facts

    Ordinals order days as their (year, month, day) triples do, so that
    comparing two datetimes by ordinal and time of day is comparing them
    field by field, and a date that parses is a midnight within the range
    of [datetime]. *)

Section CalendarFacts.

Import Calendar.

Lemma days_before_year_succ y :
  days_before_year (y + 1) = days_before_year y + 365 + (if is_leap y then 1 else 0).
Proof.
  unfold days_before_year, is_leap.
  replace (y + 1 - 1) with y by lia.
  destruct (y mod 4 =? 0) eqn:E4, (y mod 100 =? 0) eqn:E100, (y mod 400 =? 0) eqn:E400;
    simpl; Z.to_euclidean_division_equations; lia.
Qed.

Lemma days_before_year_mono y y' : y <= y' → days_before_year y <= days_before_year y'.
Proof. unfold days_before_year. intros. Z.to_euclidean_division_equations. lia. Qed.

(** One case for each month of the year. *)
Ltac month_cases m :=
  let H := fresh in
  assert (m = 1 ∨ m = 2 ∨ m = 3 ∨ m = 4 ∨ m = 5 ∨ m = 6 ∨ m = 7 ∨ m = 8 ∨ m = 9
          ∨ m = 10 ∨ m = 11 ∨ m = 12) as H by lia;
  repeat destruct H as [->|H]; [..|subst m].

Lemma day_of_year_range y m d :
  valid_date y m d →
  1 <= days_before_month y m + d <= 365 + (if is_leap y then 1 else 0).
Proof.
  intros (_ & Hm & Hd). unfold days_before_month, days_in_month in *.
  month_cases m; destruct (is_leap y); simpl in *; lia.
Qed.

Lemma day_of_year_lt y m d m' d' :
  valid_date y m d → valid_date y m' d' →
  m < m' ∨ (m = m' ∧ d < d') →
  days_before_month y m + d < days_before_month y m' + d'.
Proof.
  intros (_ & Hm & Hd) (_ & Hm' & Hd') Hlt.
  unfold days_before_month, days_in_month in *.
  month_cases m; month_cases m'; destruct (is_leap y); simpl in *; lia.
Qed.

Lemma ymd2ord_lt y m d y' m' d' :
  valid_date y m d → valid_date y' m' d' →
  y < y' ∨ (y = y' ∧ (m < m' ∨ (m = m' ∧ d < d'))) →
  ymd2ord y m d < ymd2ord y' m' d'.
Proof.
  intros Hv Hv' [Hy|[-> Hmd]]; unfold ymd2ord.
  - pose proof (day_of_year_range _ _ _ Hv). pose proof (day_of_year_range _ _ _ Hv').
    pose proof (days_before_year_succ y).
    pose proof (days_before_year_mono (y + 1) y'). lia.
  - pose proof (day_of_year_lt _ _ _ _ _ Hv Hv' Hmd). lia.
Qed.

Lemma ymd2ord_range y m d : valid_date y m d → 1 <= ymd2ord y m d <= 3652059.
Proof.
  intros Hv. pose proof (day_of_year_range _ _ _ Hv) as Hr.
  destruct Hv as (Hy & _). unfold ymd2ord.
  pose proof (days_before_year_mono 1 y). pose proof (days_before_year_mono (y + 1) 10000).
  pose proof (days_before_year_succ y).
  change (days_before_year 1) with 0 in *.
  change (days_before_year 10000) with 3652059 in *. lia.
Qed.

Lemma datetime_ymd_Some y m d t :
  datetime_ymd y m d = Some t ↔ valid_date y m d ∧ t = midnight (ymd2ord y m d).
Proof.
  unfold datetime_ymd, valid_date, midnight.
  destruct (_ && _) eqn:E.
  - split; [intros [= <-]; split; [lia|done] | intros [_ ->]; done].
  - split; [done | intros [? _]; lia].
Qed.

Lemma strptime_wf s t :
  Strptime.strptime s = Some t → datetime_wf t ∧ usec_of_day t = 0.
Proof.
  unfold Strptime.strptime. intros H.
  repeat (simplify_option_eq || case_match).
  apply datetime_ymd_Some in H as [Hv ->].
  split; [|done]. split; [by apply ymd2ord_range|]. simpl. unfold USEC_PER_DAY. lia.
Qed.

End CalendarFacts.

(** ** Datetime order *)

Lemma dt_leb_le a b : (a <=? b)%dt = true ↔ dt_le a b.
Proof. unfold dt_leb, dt_le. lia. Qed.

Lemma dt_ltb_lt a b : (a <? b)%dt = true ↔ dt_lt a b.
Proof. unfold dt_ltb, dt_lt. lia. Qed.

Lemma dt_ltb_leb a b : (a <? b)%dt = negb (b <=? a)%dt.
Proof. unfold dt_ltb, dt_leb. lia. Qed.

Lemma dt_le_refl a : dt_le a a.
Proof. unfold dt_le. lia. Qed.

Lemma dt_le_trans a b c : dt_le a b → dt_le b c → dt_le a c.
Proof. unfold dt_le. lia. Qed.

Lemma weekday_range t : 0 <= weekday t <= 6.
Proof. unfold weekday. pose proof (Z.mod_pos_bound (toordinal t + 6) 7). lia. Qed.

Lemma clamp_le today d : dt_le (clamp today d) today.
Proof.
  unfold clamp. destruct (today <? d)%dt eqn:E; unfold dt_ltb, dt_le in *; lia.
Qed.

Lemma clamp_le_iff today lo d :
  dt_le lo today → dt_le lo (clamp today d) ↔ dt_le lo d.
Proof.
  unfold clamp. destruct (today <? d)%dt eqn:E; unfold dt_ltb, dt_le in *; lia.
Qed.

(** Unfolds the order on datetimes down to linear arithmetic on ordinals
    and microseconds. *)
Ltac dt_arith :=
  unfold clamp, start_of_week, midnight, dt_le, dt_lt, dt_leb, dt_ltb,
    sub_days, add_days in *;
  simpl in *;
  repeat match goal with
         | t : datetime |- _ => pose proof (weekday_range t); destruct t
         end;
  simpl in *; repeat case_match; simpl in *; try lia.

(** ** The three predicates *)

(** Unfolds a predicate down to the value it returns and the world it
    leaves. *)
Ltac run :=
  unfold is_track_from_current_week, _is_within_month, _is_within_archive_period,
    mbind, M_bind, mret, M_ret, datetime_now, print, now, tick;
  simpl.

Lemma string_length_app (s1 s2 : string) :
  String.length (s1 +:+ s2) = (String.length s1 + String.length s2)%nat.
Proof. induction s1 as [|c s1 IH]; simpl; [done|]. by rewrite IH. Qed.

Section Predicates.

Variable ARCHIVE_DAYS : Z.

Lemma normalize_not_year rd :
  String.length rd ≠ 4%nat →
  normalize rd = if (String.length rd =? 7)%nat
                 then Strptime.strptime (rd +:+ "-01")
                 else Strptime.strptime rd.
Proof.
  intros Hlen. unfold normalize, precision_of.
  destruct (Nat.eqb_spec (String.length rd) 4); [done|].
  by destruct (String.length rd =? 7)%nat.
Qed.

Lemma is_track_from_current_week_year rd w :
  String.length rd = 4%nat → is_track_from_current_week rd w = (false, tick w).
Proof. intros Hlen. run. by rewrite Hlen. Qed.

Lemma is_track_from_current_week_parsed rd d w :
  String.length rd ≠ 4%nat → normalize rd = Some d →
  is_track_from_current_week rd w =
    ((start_of_week (now w) <=? clamp (now w) d)%dt
     && (clamp (now w) d <=? add_days (start_of_week (now w)) 6)%dt,
     tick w).
Proof.
  intros Hlen Hd. rewrite normalize_not_year in Hd by done. run.
  destruct (Nat.eqb_spec (String.length rd) 4); [done|]. by rewrite Hd.
Qed.

Lemma is_track_from_current_week_invalid rd w :
  String.length rd ≠ 4%nat → normalize rd = None →
  is_track_from_current_week rd w =
    (false,
     with_stdout (stdout w ++ ["Warning: Invalid release date format: " +:+ rd])
                 (tick w)).
Proof.
  intros Hlen Hd. rewrite normalize_not_year in Hd by done. run.
  destruct (Nat.eqb_spec (String.length rd) 4); [done|]. by rewrite Hd.
Qed.

Lemma _is_within_month_year rd w :
  String.length rd = 4%nat → _is_within_month ARCHIVE_DAYS rd w = (false, tick w).
Proof. intros Hlen. run. by rewrite Hlen. Qed.

Lemma _is_within_month_parsed rd d w :
  String.length rd ≠ 4%nat → normalize rd = Some d →
  _is_within_month ARCHIVE_DAYS rd w =
    ((sub_days (now w) ARCHIVE_DAYS <=? clamp (now w) d)%dt, tick w).
Proof.
  intros Hlen Hd. rewrite normalize_not_year in Hd by done. run.
  destruct (Nat.eqb_spec (String.length rd) 4); [done|]. by rewrite Hd.
Qed.

Lemma _is_within_month_invalid rd w :
  String.length rd ≠ 4%nat → normalize rd = None →
  _is_within_month ARCHIVE_DAYS rd w = (false, tick w).
Proof.
  intros Hlen Hd. rewrite normalize_not_year in Hd by done. run.
  destruct (Nat.eqb_spec (String.length rd) 4); [done|]. by rewrite Hd.
Qed.

Lemma _is_within_archive_period_year rd w :
  String.length rd = 4%nat →
  _is_within_archive_period ARCHIVE_DAYS rd w = (false, tick w).
Proof. intros Hlen. run. by rewrite Hlen. Qed.

Lemma _is_within_archive_period_parsed rd d w :
  String.length rd ≠ 4%nat → normalize rd = Some d →
  _is_within_archive_period ARCHIVE_DAYS rd w =
    ((sub_days (now w) ARCHIVE_DAYS <=? clamp (now w) d)%dt
     && (clamp (now w) d <=? sub_days (now w) 7)%dt,
     tick w).
Proof.
  intros Hlen Hd. rewrite normalize_not_year in Hd by done. run.
  destruct (Nat.eqb_spec (String.length rd) 4); [done|]. by rewrite Hd.
Qed.

Lemma _is_within_archive_period_invalid rd w :
  String.length rd ≠ 4%nat → normalize rd = None →
  _is_within_archive_period ARCHIVE_DAYS rd w = (false, tick w).
Proof.
  intros Hlen Hd. rewrite normalize_not_year in Hd by done. run.
  destruct (Nat.eqb_spec (String.length rd) 4); [done|]. by rewrite Hd.
Qed.

End Predicates.

(** ** Claims on the date classifier *)

Section Classifier.

Variable ARCHIVE_DAYS : Z.

(** A date in the future is clamped to today, and today is in the current
    week. *)
Lemma is_track_from_current_week_future rd d w :
  precision_of rd ≠ Year → normalize rd = Some d → dt_lt (now w) d →
  (is_track_from_current_week rd w).1 = true.
Proof.
  intros Hp Hd Hlt.
  assert (String.length rd ≠ 4%nat) as Hlen.
  { intros E. apply Hp. unfold precision_of. by rewrite E. }
  rewrite (is_track_from_current_week_parsed rd d) by done. simpl.
  generalize (now w) Hlt. clear. intros t Hlt.
  apply andb_true_iff. rewrite !dt_leb_le. dt_arith.
Qed.

(** A release dated today is in the current week unless today is a Monday
    and midnight has passed. *)
Lemma is_track_from_current_week_today rd w :
  precision_of rd ≠ Year → normalize rd = Some (midnight (toordinal (now w))) →
  0 <= usec_of_day (now w) →
  (is_track_from_current_week rd w).1
    = negb ((weekday (now w) =? 0) && (0 <? usec_of_day (now w))).
Proof.
  intros Hp Hd Hus.
  assert (String.length rd ≠ 4%nat) as Hlen.
  { intros E. apply Hp. unfold precision_of. by rewrite E. }
  rewrite (is_track_from_current_week_parsed rd _ w Hlen Hd). simpl.
  generalize (now w) Hus. clear. intros t Hus.
  pose proof (weekday_range t).
  unfold clamp, start_of_week, midnight, dt_leb, dt_ltb, sub_days, add_days.
  destruct t as [o u]; simpl in *.
  destruct ((o <? o) || (o =? o) && (u <? 0)) eqn:E; [lia|]. simpl. lia.
Qed.

Lemma precision_not_year rd : precision_of rd ≠ Year ↔ String.length rd ≠ 4%nat.
Proof.
  unfold precision_of. destruct (Nat.eqb_spec (String.length rd) 4).
  - split; [done|]. intros H; by destruct H.
  - split; [done|]. intros _. by destruct (String.length rd =? 7)%nat.
Qed.

(** C3, amended. A release date of year-only precision is never in the
    current week. A year-month date is read as the first day of its
    month and classified like that full date, so it is in the current
    week exactly when that first day is. *)
Theorem this_week_by_precision rd w :
  (precision_of rd = Year → (is_track_from_current_week rd w).1 = false)
  ∧ (precision_of rd = YearMonth →
     (is_track_from_current_week rd w).1
       = (is_track_from_current_week (rd +:+ "-01") w).1).
Proof.
  unfold precision_of. split.
  - destruct (Nat.eqb_spec (String.length rd) 4) as [E|]; [|by case_match].
    intros _. by rewrite is_track_from_current_week_year.
  - destruct (Nat.eqb_spec (String.length rd) 4) as [|N4]; [done|].
    destruct (Nat.eqb_spec (String.length rd) 7) as [E7|]; [|done].
    intros _. run. rewrite string_length_app, E7. simpl.
    by destruct (Strptime.strptime (rd +:+ "-01")).
Qed.

(** C3, counterexample. On Friday 3 May 2024 the year-month date
    "2024-05" is read as Wednesday 1 May and is in the current week. *)
Lemma year_month_in_current_week :
  precision_of "2024-05" = YearMonth
  ∧ (is_track_from_current_week "2024-05"
       (Examples.world_at (λ _, Examples.friday) [])).1 = true.
Proof. split; reflexivity. Qed.

(** C5, at the failing input. On Monday 6 May 2024 at ten o'clock a
    release dated that same day is not in the current week: the week
    starts on Monday at the time of day of the clock, after the midnight
    the release date stands for. *)
Theorem monday_release_not_in_week :
  normalize "2024-05-06" = Some (midnight (toordinal Examples.monday))
  ∧ weekday Examples.monday = 0
  ∧ (is_track_from_current_week "2024-05-06"
       (Examples.world_at (λ _, Examples.monday) [])).1 = false.
Proof. repeat split; reflexivity. Qed.

(** C6, amended. With [ARCHIVE_DAYS] set to 30, [_is_within_month] holds
    exactly for a date that is not of year-only precision, parses, and,
    once a future date has been clamped to now, lies between now minus 30
    days and now, both bounds included; since the clamped date is never
    after now, this is the case exactly when the date is not before now
    minus 30 days. *)
Theorem within_month_iff rd w :
  ((_is_within_month 30 rd w).1 = true
   ↔ precision_of rd ≠ Year
     ∧ ∃ d, normalize rd = Some d
            ∧ dt_le (sub_days (now w) 30) (clamp (now w) d)
            ∧ dt_le (clamp (now w) d) (now w))
  ∧ ((_is_within_month 30 rd w).1 = true
     ↔ precision_of rd ≠ Year
       ∧ ∃ d, normalize rd = Some d ∧ dt_le (sub_days (now w) 30) d).
Proof.
  assert (dt_le (sub_days (now w) 30) (now w)) as Hnow by dt_arith.
  rewrite precision_not_year.
  destruct (decide (String.length rd = 4%nat)) as [E|N].
  { rewrite _is_within_month_year by done. simpl.
    split; (split; [done | intros [? _]; done]). }
  destruct (normalize rd) as [d|] eqn:Hd.
  - rewrite (_is_within_month_parsed 30 rd d) by done. simpl.
    rewrite dt_leb_le. split; (split; [intros H; split; [done|]; exists d|]).
    + split; [done|]. split; [done|]. apply clamp_le.
    + intros (_ & d' & [= <-] & H & _). done.
    + split; [done|]. by apply clamp_le_iff in H.
    + intros (_ & d' & [= <-] & H). by apply clamp_le_iff.
  - rewrite _is_within_month_invalid by done. simpl.
    split; (split; [done | intros (_ & d & ? & _); done]).
Qed.

(** C6, counterexample. On Friday 3 May 2024 a release dated 1 June 2024
    is within the month, although its normalized date is after now. *)
Lemma future_release_within_month :
  normalize "2024-06-01" = Some (Examples.datetime_at 2024 6 1 0 0 0)
  ∧ ¬ dt_le (Examples.datetime_at 2024 6 1 0 0 0) Examples.friday
  ∧ (_is_within_month 30 "2024-06-01"
       (Examples.world_at (λ _, Examples.friday) [])).1 = true.
Proof.
  split; [reflexivity|]. split; [|reflexivity].
  unfold dt_le. vm_compute. intros [H|[H _]]; discriminate H.
Qed.

(** C10. For every release date and every now, when
    [is_track_from_current_week] and [_is_within_archive_period] read the
    same now they never both hold: the current week starts at most 6 days
    before now, the archive period ends 7 days before now. *)
Theorem week_and_archive_period_disjoint rd w w' :
  now w = now w' →
  ¬ ((is_track_from_current_week rd w).1 = true
     ∧ (_is_within_archive_period ARCHIVE_DAYS rd w').1 = true).
Proof.
  intros Hnow.
  destruct (decide (String.length rd = 4%nat)) as [E|N].
  { rewrite is_track_from_current_week_year by done. simpl. by intros [? _]. }
  destruct (normalize rd) as [d|] eqn:Hd.
  - rewrite (is_track_from_current_week_parsed rd d),
      (_is_within_archive_period_parsed ARCHIVE_DAYS rd d) by done.
    simpl. rewrite <- Hnow, !andb_true_iff, !dt_leb_le.
    generalize (clamp (now w) d) (now w). clear. intros c t.
    intros [[H1 _] [_ H2]]. dt_arith.
  - rewrite is_track_from_current_week_invalid by done. simpl. by intros [? _].
Qed.

End Classifier.

(** C3, witness: the year "2024" and the year-month "2024-05" on Friday
    3 May 2024. *)
Lemma this_week_by_precision_witness :
  (is_track_from_current_week "2024" (Examples.world_at (λ _, Examples.friday) [])).1
    = false
  ∧ (is_track_from_current_week "2024-05"
       (Examples.world_at (λ _, Examples.friday) [])).1
    = (is_track_from_current_week "2024-05-01"
         (Examples.world_at (λ _, Examples.friday) [])).1.
Proof.
  split.
  - apply (proj1 (this_week_by_precision "2024" _)). reflexivity.
  - apply (proj2 (this_week_by_precision "2024-05" _)). reflexivity.
Defined.

(** ** Loops and the clock *)

Lemma fmap_bind_list {A B C} (f : B → C) (g : A → list B) (l : list A) :
  f <$> (l ≫= g) = l ≫= (λ x, f <$> g x).
Proof.
  induction l as [|x l IH]; [done|]. by rewrite !bind_cons, fmap_app, IH.
Qed.

Lemma for_in_cons {A S} (x : A) (xs : list A) (body : A → S → M S) acc w :
  for_in (x :: xs) body acc w = for_in xs body (body x acc w).1 (body x acc w).2.
Proof. simpl. unfold mbind, M_bind. by destruct (body x acc w). Qed.

Lemma for_in_app {A S} (xs ys : list A) (body : A → S → M S) acc w :
  for_in (xs ++ ys) body acc w
  = for_in ys body (for_in xs body acc w).1 (for_in xs body acc w).2.
Proof.
  revert acc w. induction xs as [|x xs IH]; intros acc w; simpl; [done|].
  unfold mbind, M_bind. destruct (body x acc w) as [acc' w']. apply IH.
Qed.

(** An invariant of the loop body is an invariant of the loop. *)
Lemma for_in_invariant {A S} (I : S → World → Prop) (xs : list A) (body : A → S → M S) :
  (∀ x acc w, x ∈ xs → I acc w → I (body x acc w).1 (body x acc w).2) →
  ∀ acc w, I acc w → I (for_in xs body acc w).1 (for_in xs body acc w).2.
Proof.
  induction xs as [|x xs IH]; intros Hbody acc w HI; simpl; [done|].
  unfold mbind, M_bind.
  specialize (Hbody x acc w (list_elem_of_here _ _) HI) as Hx.
  destruct (body x acc w) as [acc' w']. apply IH; [|done].
  intros y acc0 w0 Hy. apply Hbody. by apply list_elem_of_further.
Qed.

Create HintDb quiet.

Lemma quiet_ret {A} (a : A) : quiet (mret a).
Proof. by intros w. Qed.

Lemma quiet_bind {A B} (m : M A) (f : A → M B) :
  quiet m → (∀ a, quiet (f a)) → quiet (m ≫= f).
Proof.
  intros Hm Hf w. unfold mbind, M_bind. destruct (Hm w) as (Hc & Hd & Ha).
  destruct (m w) as [a w']. destruct (Hf a w') as (-> & -> & ->). done.
Qed.

Lemma quiet_if {A} (b : bool) (m1 m2 : M A) :
  quiet m1 → quiet m2 → quiet (if b then m1 else m2).
Proof. by destruct b. Qed.

Lemma quiet_for_in {A S} (xs : list A) (body : A → S → M S) acc :
  (∀ x acc, quiet (body x acc)) → quiet (for_in xs body acc).
Proof.
  intros Hbody. revert acc. induction xs as [|x xs IH]; intros acc; simpl.
  - apply quiet_ret.
  - apply quiet_bind; [apply Hbody | apply IH].
Qed.

Lemma quiet_datetime_now : quiet datetime_now.
Proof. by intros w. Qed.

Lemma quiet_print line : quiet (print line).
Proof. by intros w. Qed.

Lemma quiet_get_artist_ids : quiet ArtistDatabase.get_artist_ids.
Proof.
  intros w. unfold ArtistDatabase.get_artist_ids, ArtistDatabase.select_ids.
  by destruct (db_fault (artists_db w)).
Qed.

Lemma get_artist_ids_run w :
  db_fault (artists_db w) = None →
  ArtistDatabase.get_artist_ids w
  = (merge_sort ArtistDatabase.id_le (row_id <$> db_rows (artists_db w)), w).
Proof.
  intros Hfault. unfold ArtistDatabase.get_artist_ids, ArtistDatabase.select_ids.
  by rewrite Hfault.
Qed.

Lemma get_artist_ids_fault w e :
  db_fault (artists_db w) = Some e →
  ArtistDatabase.get_artist_ids w
  = ([], with_stdout (stdout w ++ ["Database error: " +:+ e]) w).
Proof.
  intros Hfault. unfold ArtistDatabase.get_artist_ids, ArtistDatabase.select_ids.
  by rewrite Hfault.
Qed.

(** The ids listed are the ids stored, in another order. *)
Lemma get_artist_ids_stored w :
  db_fault (artists_db w) = None →
  (ArtistDatabase.get_artist_ids w).1 ≡ₚ row_id <$> db_rows (artists_db w).
Proof. intros Hfault. rewrite get_artist_ids_run by done. apply merge_sort_Permutation. Qed.

#[export] Hint Resolve quiet_ret quiet_bind quiet_if
  quiet_for_in quiet_datetime_now quiet_print
  quiet_get_artist_ids
  : quiet.

Lemma quiet_is_track_from_current_week rd :
  quiet (is_track_from_current_week rd).
Proof.
  unfold is_track_from_current_week. apply quiet_bind; [auto with quiet|].
  intros today. repeat case_match; auto with quiet.
Qed.

Lemma quiet__is_within_month ARCHIVE_DAYS rd :
  quiet (_is_within_month ARCHIVE_DAYS rd).
Proof.
  unfold _is_within_month. apply quiet_bind; [auto with quiet|].
  intros today. repeat case_match; auto with quiet.
Qed.

Lemma quiet__is_within_archive_period ARCHIVE_DAYS rd :
  quiet (_is_within_archive_period ARCHIVE_DAYS rd).
Proof.
  unfold _is_within_archive_period. apply quiet_bind; [auto with quiet|].
  intros today. repeat case_match; auto with quiet.
Qed.

#[export] Hint Resolve quiet_is_track_from_current_week
  quiet__is_within_month quiet__is_within_archive_period : quiet.

Lemma quiet_update_playlist_track ARCHIVE_DAYS cur arc a rd t acc :
  quiet (update_playlist_track ARCHIVE_DAYS cur arc a rd t acc).
Proof.
  unfold update_playlist_track. destruct acc as [new_tracks archive_tracks].
  repeat apply quiet_if; try apply quiet_ret.
  apply quiet_bind; [auto with quiet|]. intros this_week.
  apply quiet_if; [auto with quiet|].
  apply quiet_bind; [auto with quiet|]. intros in_archive.
  apply quiet_if; auto with quiet.
Qed.

#[export] Hint Resolve quiet_update_playlist_track : quiet.

Lemma quiet_update_playlist_album ARCHIVE_DAYS self cur arc a al acc :
  quiet (update_playlist_album ARCHIVE_DAYS self cur arc a al acc).
Proof.
  unfold update_playlist_album.
  apply quiet_bind; [auto with quiet|]. intros within.
  apply quiet_if; auto with quiet.
Qed.

#[export] Hint Resolve quiet_update_playlist_album : quiet.

Lemma quiet_update_playlist_artist ARCHIVE_DAYS self cur arc a acc :
  quiet (update_playlist_artist ARCHIVE_DAYS self cur arc a acc).
Proof. unfold update_playlist_artist. auto with quiet. Qed.

#[export] Hint Resolve quiet_update_playlist_artist : quiet.

Lemma quiet_frozen {A} (m : M A) today w :
  quiet m → frozen today w → frozen today (m w).2.
Proof. intros Hm Hw n. destruct (Hm w) as [-> _]. apply Hw. Qed.

Lemma frozen_now today w : frozen today w → now w = today.
Proof. intros Hw. apply Hw. Qed.

(** ** The collecting loops, whatever the clock shows *)

Section Collect.

Variable ARCHIVE_DAYS : Z.
Variable self : Tracker.

Abbreviation cur := (current_track_ids self).
Abbreviation arc := (archive_track_ids self).

Lemma update_playlist_track_fresh a rd t acc w :
  fresh self acc → fresh self (update_playlist_track ARCHIVE_DAYS cur arc a rd t acc w).1.
Proof.
  intros Hacc. unfold update_playlist_track. destruct acc as [n r].
  destruct (negb (String.eqb (track_artist t) a)); [done|].
  destruct (bool_decide (track_id t ∈ cur)) eqn:Hcur; [done|].
  destruct (bool_decide (track_id t ∈ arc)) eqn:Harc; [done|].
  apply bool_decide_eq_false in Hcur, Harc. simpl.
  unfold mbind, M_bind, mret, M_ret.
  destruct (is_track_from_current_week rd w) as [[] w2]; simpl.
  - intros id [Hid|Hid]; simpl in *.
    + apply elem_of_app in Hid as [Hid|Hid]; [apply Hacc; by left|].
      apply list_elem_of_singleton in Hid as ->. done.
    + apply Hacc. by right.
  - destruct (_is_within_archive_period ARCHIVE_DAYS rd w2) as [[] w3]; simpl; [|done].
    intros id [Hid|Hid]; simpl in *.
    + apply Hacc. by left.
    + apply elem_of_app in Hid as [Hid|Hid]; [apply Hacc; by right|].
      apply list_elem_of_singleton in Hid as ->. done.
Qed.

Lemma update_playlist_album_fresh a al acc w :
  fresh self acc → fresh self (update_playlist_album ARCHIVE_DAYS self cur arc a al acc w).1.
Proof.
  intros Hacc. unfold update_playlist_album, mbind, M_bind, mret, M_ret.
  destruct (_is_within_month ARCHIVE_DAYS (release_date al) w) as [[] w1]; simpl; [|done].
  apply (for_in_invariant (λ acc _, fresh self acc)); [|done].
  intros t acc' w' _. apply update_playlist_track_fresh.
Qed.

Lemma update_playlist_artist_fresh a acc w :
  fresh self acc → fresh self (update_playlist_artist ARCHIVE_DAYS self cur arc a acc w).1.
Proof.
  intros Hacc. unfold update_playlist_artist.
  apply (for_in_invariant (λ acc _, fresh self acc)); [|done].
  intros al acc' w' _. apply update_playlist_album_fresh.
Qed.

Lemma update_playlist_collect_fresh w :
  fresh self (update_playlist_collect ARCHIVE_DAYS self w).1.
Proof.
  unfold update_playlist_collect, mbind, M_bind.
  destruct (ArtistDatabase.get_artist_ids w) as [artist_ids w1].
  apply (for_in_invariant (λ acc _, fresh self acc)).
  - intros a acc' w' _. apply update_playlist_artist_fresh.
  - intros id [Hid|Hid]; simpl in Hid; by apply elem_of_nil in Hid.
Qed.

(** A loop whose body adds to the two lists some of the ids [f x], each at
    most once, adds some of the ids of [xs ≫= f], each at most once. *)
Lemma for_in_emits {A} (f : A → list string)
    (body : A → list string * list string → M (list string * list string)) xs :
  (∀ x acc w, ∃ k, k ⊆+ f x ∧ both (body x acc w).1 ≡ₚ both acc ++ k) →
  ∀ acc w, ∃ k, k ⊆+ xs ≫= f ∧ both (for_in xs body acc w).1 ≡ₚ both acc ++ k.
Proof.
  intros Hbody. induction xs as [|x xs IH]; intros acc w.
  - exists []. split; [done|]. simpl. by rewrite app_nil_r.
  - rewrite for_in_cons, bind_cons. destruct (Hbody x acc w) as (k1 & Hk1 & Hp1).
    destruct (IH (body x acc w).1 (body x acc w).2) as (k2 & Hk2 & Hp2).
    exists (k1 ++ k2). split; [by apply submseteq_app|].
    by rewrite Hp2, Hp1, (assoc_L (++)).
Qed.

Lemma album_candidates_ids a al :
  (album_candidates self a al).*1 = album_tracks (sp self) (album_id al) ≫= track_ids_of a.
Proof.
  unfold album_candidates.
  induction (album_tracks (sp self) (album_id al)) as [|t ts IH]; [done|].
  rewrite filter_cons, bind_cons. unfold track_ids_of at 1.
  destruct (decide (track_artist t = a)); [|exact IH].
  rewrite !fmap_cons. simpl. f_equal. exact IH.
Qed.

Lemma update_playlist_track_emits a rd t acc w :
  ∃ k, k ⊆+ track_ids_of a t
       ∧ both (update_playlist_track ARCHIVE_DAYS cur arc a rd t acc w).1 ≡ₚ both acc ++ k.
Proof.
  unfold update_playlist_track, track_ids_of. destruct acc as [n r].
  destruct (String.eqb_spec (track_artist t) a) as [->|Hne]; simpl.
  2:{ exists []. by rewrite app_nil_r, decide_False. }
  rewrite decide_True by done.
  destruct (bool_decide (track_id t ∈ cur) || bool_decide (track_id t ∈ arc)).
  { exists []. split; [apply submseteq_nil_l | by rewrite app_nil_r]. }
  unfold mbind, M_bind, mret, M_ret.
  destruct (is_track_from_current_week rd w) as [[] w2]; simpl.
  - exists [track_id t]. split; [done|]. unfold both; simpl.
    rewrite <- !(assoc_L (++)). f_equiv. apply Permutation_app_comm.
  - destruct (_is_within_archive_period ARCHIVE_DAYS rd w2) as [[] w3]; simpl.
    + exists [track_id t]. split; [done|]. unfold both; simpl.
      by rewrite (assoc_L (++)).
    + exists []. split; [apply submseteq_nil_l | by rewrite app_nil_r].
Qed.

Lemma update_playlist_album_emits a al acc w :
  ∃ k, k ⊆+ (album_candidates self a al).*1
       ∧ both (update_playlist_album ARCHIVE_DAYS self cur arc a al acc w).1
         ≡ₚ both acc ++ k.
Proof.
  unfold update_playlist_album, mbind, M_bind, mret, M_ret.
  destruct (_is_within_month ARCHIVE_DAYS (release_date al) w) as [[] w1]; simpl.
  - rewrite album_candidates_ids. apply for_in_emits.
    intros t acc' w'. apply update_playlist_track_emits.
  - exists []. split; [apply submseteq_nil_l | by rewrite app_nil_r].
Qed.

Lemma update_playlist_artist_emits a acc w :
  ∃ k, k ⊆+ (artist_candidates self a).*1
       ∧ both (update_playlist_artist ARCHIVE_DAYS self cur arc a acc w).1
         ≡ₚ both acc ++ k.
Proof.
  unfold update_playlist_artist, artist_candidates.
  destruct (for_in_emits (λ al, (album_candidates self a al).*1)
              (update_playlist_album ARCHIVE_DAYS self cur arc a)
              (artist_albums (sp self) a)
              (λ al acc w, update_playlist_album_emits a al acc w) acc w)
    as (k & Hk & Hp).
  exists k. split; [|done]. by rewrite fmap_bind_list.
Qed.

(** The ids collected in a cycle, with their multiplicity, are among the ids
    of the candidates. *)
Lemma update_playlist_collect_candidates w :
  both (update_playlist_collect ARCHIVE_DAYS self w).1
    ⊆+ (candidates self (ArtistDatabase.get_artist_ids w).1).*1.
Proof.
  unfold update_playlist_collect, mbind, M_bind, candidates.
  destruct (ArtistDatabase.get_artist_ids w) as [artist_ids w1]. simpl.
  destruct (for_in_emits (λ a, (artist_candidates self a).*1)
              (update_playlist_artist ARCHIVE_DAYS self cur arc) artist_ids
              (λ a acc w, update_playlist_artist_emits a acc w) ([], []) w1)
    as (k & Hk & Hp).
  rewrite Hp. simpl. by rewrite fmap_bind_list.
Qed.

End Collect.

(** ** The collecting loops under a clock that does not move *)

Lemma is_track_from_current_week_now rd w w' :
  now w = now w' →
  (is_track_from_current_week rd w).1 = (is_track_from_current_week rd w').1.
Proof.
  intros H. run. unfold now in H. rewrite H.
  destruct (String.length rd =? 4)%nat; [done|]. by case_match.
Qed.

Lemma _is_within_month_now ARCHIVE_DAYS rd w w' :
  now w = now w' →
  (_is_within_month ARCHIVE_DAYS rd w).1 = (_is_within_month ARCHIVE_DAYS rd w').1.
Proof.
  intros H. run. unfold now in H. rewrite H.
  destruct (String.length rd =? 4)%nat; [done|]. by case_match.
Qed.

Lemma _is_within_archive_period_now ARCHIVE_DAYS rd w w' :
  now w = now w' →
  (_is_within_archive_period ARCHIVE_DAYS rd w).1
  = (_is_within_archive_period ARCHIVE_DAYS rd w').1.
Proof.
  intros H. run. unfold now in H. rewrite H.
  destruct (String.length rd =? 4)%nat; [done|]. by case_match.
Qed.

Section Frozen.

Variable ARCHIVE_DAYS : Z.
Variable self : Tracker.
Variable today : datetime.

Abbreviation cur := (current_track_ids self).
Abbreviation arc := (archive_track_ids self).
Abbreviation new_of := (new_batch self ARCHIVE_DAYS today).
Abbreviation archive_of := (archive_batch self ARCHIVE_DAYS today).

Lemma is_track_from_current_week_frozen rd w :
  frozen today w →
  (is_track_from_current_week rd w).1 = at_time today (is_track_from_current_week rd).
Proof. intros Hw. apply is_track_from_current_week_now, Hw. Qed.

Lemma _is_within_month_frozen rd w :
  frozen today w →
  (_is_within_month ARCHIVE_DAYS rd w).1
  = at_time today (_is_within_month ARCHIVE_DAYS rd).
Proof. intros Hw. apply _is_within_month_now, Hw. Qed.

Lemma _is_within_archive_period_frozen rd w :
  frozen today w →
  (_is_within_archive_period ARCHIVE_DAYS rd w).1
  = at_time today (_is_within_archive_period ARCHIVE_DAYS rd).
Proof. intros Hw. apply _is_within_archive_period_now, Hw. Qed.

Lemma new_batch_app l1 l2 : new_of (l1 ++ l2) = new_of l1 ++ new_of l2.
Proof. unfold new_batch. by rewrite filter_app, fmap_app. Qed.

Lemma archive_batch_app l1 l2 : archive_of (l1 ++ l2) = archive_of l1 ++ archive_of l2.
Proof. unfold archive_batch. by rewrite filter_app, fmap_app. Qed.

Lemma new_batch_bind {A} (h : A → list (string * string)) xs :
  new_of (xs ≫= h) = xs ≫= (λ x, new_of (h x)).
Proof.
  induction xs as [|x xs IH]; [done|]. by rewrite !bind_cons, new_batch_app, IH.
Qed.

Lemma archive_batch_bind {A} (h : A → list (string * string)) xs :
  archive_of (xs ≫= h) = xs ≫= (λ x, archive_of (h x)).
Proof.
  induction xs as [|x xs IH]; [done|]. by rewrite !bind_cons, archive_batch_app, IH.
Qed.

(** A loop whose body appends [g1 x] and [g2 x] to the two lists appends
    [xs ≫= g1] and [xs ≫= g2]. *)
Lemma for_in_frozen {A} (g1 g2 : A → list string)
    (body : A → list string * list string → M (list string * list string)) xs :
  (∀ x acc, quiet (body x acc)) →
  (∀ x n r w, frozen today w → (body x (n, r) w).1 = (n ++ g1 x, r ++ g2 x)) →
  ∀ n r w, frozen today w →
    (for_in xs body (n, r) w).1 = (n ++ (xs ≫= g1), r ++ (xs ≫= g2)).
Proof.
  intros Hclock Hbody. induction xs as [|x xs IH]; intros n r w Hw.
  - simpl. by rewrite !app_nil_r.
  - rewrite for_in_cons, !bind_cons.
    pose proof (quiet_frozen _ today w (Hclock x (n, r)) Hw) as Hw'.
    specialize (Hbody x n r w Hw).
    destruct (body x (n, r) w) as [[n' r'] w']. cbn [fst snd] in *.
    injection Hbody as -> ->.
    rewrite IH by done. by rewrite !(assoc_L (++)).
Qed.

Lemma album_candidates_bind a al :
  album_candidates self a al
  = album_tracks (sp self) (album_id al) ≫= track_candidates a (release_date al).
Proof.
  unfold album_candidates.
  induction (album_tracks (sp self) (album_id al)) as [|t ts IH]; [done|].
  rewrite filter_cons, bind_cons. unfold track_candidates at 1.
  destruct (decide (track_artist t = a)); [|exact IH].
  rewrite fmap_cons. simpl. f_equal. exact IH.
Qed.

Lemma update_playlist_track_frozen a rd t n r w :
  frozen today w →
  at_time today (_is_within_month ARCHIVE_DAYS rd) = true →
  (update_playlist_track ARCHIVE_DAYS cur arc a rd t (n, r) w).1
  = (n ++ new_of (track_candidates a rd t), r ++ archive_of (track_candidates a rd t)).
Proof.
  intros Hw Hwithin. unfold update_playlist_track, track_candidates.
  destruct (String.eqb_spec (track_artist t) a) as [->|Hne]; simpl.
  2:{ rewrite decide_False by done. by rewrite !app_nil_r. }
  rewrite decide_True by done.
  unfold new_batch, archive_batch. rewrite !filter_cons, !filter_nil.
  destruct (bool_decide (track_id t ∈ cur)) eqn:Hcur; simpl.
  { apply bool_decide_eq_true in Hcur.
    rewrite !decide_False, !app_nil_r; [done| |];
      unfold goes_to_archive, goes_to_new, eligible; simpl; tauto. }
  destruct (bool_decide (track_id t ∈ arc)) eqn:Harc; simpl.
  { apply bool_decide_eq_true in Harc.
    rewrite !decide_False, !app_nil_r; [done| |];
      unfold goes_to_archive, goes_to_new, eligible; simpl; tauto. }
  apply bool_decide_eq_false in Hcur, Harc.
  unfold mbind, M_bind, mret, M_ret.
  pose proof (is_track_from_current_week_frozen rd w Hw) as Hweek.
  pose proof (quiet_frozen _ today w
                (quiet_is_track_from_current_week rd) Hw) as Hw2.
  destruct (is_track_from_current_week rd w) as [week w2]. cbn [fst snd] in *.
  pose proof (_is_within_archive_period_frozen rd w2 Hw2) as Hperiod.
  assert (goes_to_new self ARCHIVE_DAYS today (track_id t, rd) ↔ week = true) as Hnew.
  { unfold goes_to_new, eligible; simpl. rewrite <- Hweek. tauto. }
  assert (goes_to_archive self ARCHIVE_DAYS today (track_id t, rd)
          ↔ week = false
            ∧ (_is_within_archive_period ARCHIVE_DAYS rd w2).1 = true) as Harchive.
  { unfold goes_to_archive, eligible; simpl. rewrite <- Hweek, <- Hperiod. tauto. }
  destruct week.
  { rewrite decide_True, decide_False by (rewrite ?Hnew, ?Harchive; by try intros [? ?]).
    simpl. by rewrite app_nil_r. }
  rewrite (decide_False (P := goes_to_new _ _ _ _)) by (by rewrite Hnew).
  destruct (_is_within_archive_period ARCHIVE_DAYS rd w2) as [[] w3];
    cbn [fst snd] in *.
  - rewrite decide_True by (by apply Harchive). simpl. by rewrite app_nil_r.
  - rewrite decide_False by (rewrite Harchive; by intros [? ?]).
    simpl. by rewrite !app_nil_r.
Qed.

Lemma new_batch_not_within a al :
  at_time today (_is_within_month ARCHIVE_DAYS (release_date al)) = false →
  new_of (album_candidates self a al) = [].
Proof.
  intros Hwithin. unfold new_batch, album_candidates.
  induction (filter _ (album_tracks (sp self) (album_id al))) as [|t ts IH]; [done|].
  rewrite fmap_cons, filter_cons, decide_False; [exact IH|].
  unfold goes_to_new, eligible; simpl. rewrite Hwithin. intros [[? _] _]. done.
Qed.

Lemma archive_batch_not_within a al :
  at_time today (_is_within_month ARCHIVE_DAYS (release_date al)) = false →
  archive_of (album_candidates self a al) = [].
Proof.
  intros Hwithin. unfold archive_batch, album_candidates.
  induction (filter _ (album_tracks (sp self) (album_id al))) as [|t ts IH]; [done|].
  rewrite fmap_cons, filter_cons, decide_False; [exact IH|].
  unfold goes_to_archive, eligible; simpl. rewrite Hwithin. intros [[? _] _]. done.
Qed.

Lemma update_playlist_album_frozen a al n r w :
  frozen today w →
  (update_playlist_album ARCHIVE_DAYS self cur arc a al (n, r) w).1
  = (n ++ new_of (album_candidates self a al),
     r ++ archive_of (album_candidates self a al)).
Proof.
  intros Hw. unfold update_playlist_album, mbind, M_bind, mret, M_ret.
  pose proof (_is_within_month_frozen (release_date al) w Hw) as Hwithin.
  pose proof (quiet_frozen _ today w
                (quiet__is_within_month ARCHIVE_DAYS (release_date al)) Hw)
    as Hw1.
  destruct (_is_within_month ARCHIVE_DAYS (release_date al) w) as [[] w1];
    simpl in *.
  - rewrite album_candidates_bind, new_batch_bind, archive_batch_bind.
    apply for_in_frozen; [auto with quiet| |done].
    intros t n' r' w' Hw'. by apply update_playlist_track_frozen.
  - by rewrite new_batch_not_within, archive_batch_not_within, !app_nil_r.
Qed.

Lemma update_playlist_artist_frozen a n r w :
  frozen today w →
  (update_playlist_artist ARCHIVE_DAYS self cur arc a (n, r) w).1
  = (n ++ new_of (artist_candidates self a), r ++ archive_of (artist_candidates self a)).
Proof.
  intros Hw. unfold update_playlist_artist, artist_candidates.
  rewrite new_batch_bind, archive_batch_bind.
  apply for_in_frozen; [auto with quiet| |done].
  intros al n' r' w' Hw'. by apply update_playlist_album_frozen.
Qed.

(** When every reading of the clock shows [today], the two lists of a
    cycle are the two comprehensions over the candidates. *)
Lemma update_playlist_collect_frozen w :
  frozen today w →
  (update_playlist_collect ARCHIVE_DAYS self w).1
  = (new_of (candidates self (ArtistDatabase.get_artist_ids w).1),
     archive_of (candidates self (ArtistDatabase.get_artist_ids w).1)).
Proof.
  intros Hw. unfold update_playlist_collect, mbind, M_bind, candidates.
  pose proof (quiet_frozen _ today w quiet_get_artist_ids Hw) as Hw1.
  destruct (ArtistDatabase.get_artist_ids w) as [artist_ids w1]. simpl in *.
  rewrite new_batch_bind, archive_batch_bind.
  etrans; [apply (for_in_frozen (λ a, new_of (artist_candidates self a))
                    (λ a, archive_of (artist_candidates self a)))|done];
    [auto with quiet| |done].
  intros a n r w' Hw'. by apply update_playlist_artist_frozen.
Qed.

End Frozen.

(** ** Adding in batches *)

Lemma quiet_update_playlist_collect ARCHIVE_DAYS self :
  quiet (update_playlist_collect ARCHIVE_DAYS self).
Proof. unfold update_playlist_collect. auto with quiet. Qed.

Lemma slice_50 {A} (xs : list A) i : slice xs i (i + 50) = take 50 (drop i xs).
Proof. unfold slice. f_equal. lia. Qed.

Lemma range_0_50 n : range 0 n 50 = (λ k, k * 50)%nat <$> seq 0 ((n + 49) / 50)%nat.
Proof. unfold range. by replace (n - 0 + 50 - 1)%nat with (n + 49)%nat by lia. Qed.

Lemma chunks_cover (n : nat) : (n <= 50 * ((n + 49) / 50))%nat.
Proof.
  pose proof (Nat.div_mod_eq (n + 49) 50).
  pose proof (Nat.mod_upper_bound (n + 49) 50). lia.
Qed.

(** Cutting a list into [m] consecutive pieces of 50 loses nothing when the
    list has at most [50 * m] elements. *)
Lemma concat_pieces {A} (m : nat) (xs : list A) :
  (length xs <= 50 * m)%nat →
  concat ((λ k, take 50 (drop (k * 50) xs)) <$> seq 0 m) = xs.
Proof.
  revert xs. induction m as [|m IH]; intros xs Hlen.
  - destruct xs; [done|]. simpl in Hlen. lia.
  - rewrite <- cons_seq, <- fmap_S_seq, fmap_cons, <- list_fmap_compose.
    change (concat (?x :: ?l)) with (x ++ concat l).
    change (0 * 50)%nat with 0%nat. rewrite drop_0.
    rewrite (list_fmap_ext _ (λ k, take 50 (drop (k * 50) (drop 50 xs))) (seq 0 m)).
    2:{ intros _ k _. unfold compose. by rewrite drop_drop. }
    rewrite IH; [apply take_drop|]. rewrite length_drop. lia.
Qed.

Lemma concat_batches tracks : concat (batches tracks) = tracks.
Proof.
  unfold batches. rewrite range_0_50, <- list_fmap_compose.
  rewrite (list_fmap_ext _ (λ k, take 50 (drop (k * 50) tracks)) _).
  2:{ intros _ k _. simpl. apply slice_50. }
  apply concat_pieces, chunks_cover.
Qed.

Lemma batches_at_most_50 tracks : Forall (λ b, length b <= 50)%nat (batches tracks).
Proof.
  unfold batches. apply Forall_fmap, Forall_forall. intros i _. simpl.
  rewrite slice_50, length_take. lia.
Qed.

Section Submit.

Variable ARCHIVE_DAYS : Z.
Variable self : Tracker.

Lemma with_added_items_nil w : with_added_items (added_items w ++ []) w = w.
Proof. destruct w. unfold with_added_items. simpl. by rewrite app_nil_r. Qed.

Lemma add_loop_run playlist tracks idxs n w :
  for_in idxs (λ i tracks_added,
    let batch := slice tracks i (i + 50) in
    _ ← playlist_add_items playlist batch;
    mret (tracks_added + length batch)%nat) n w
  = ((n + length (concat ((λ i, slice tracks i (i + 50)) <$> idxs)))%nat,
     with_added_items
       (added_items w ++ ((λ b, (playlist, b)) <$> ((λ i, slice tracks i (i + 50)) <$> idxs)))
       w).
Proof.
  revert n w. induction idxs as [|i idxs IH]; intros n w.
  - simpl. rewrite with_added_items_nil. unfold mret, M_ret. f_equal. lia.
  - rewrite for_in_cons. unfold mbind, M_bind, mret, M_ret, playlist_add_items.
    cbn [fst snd]. rewrite IH. rewrite !fmap_cons. simpl concat.
    rewrite length_app. f_equal; [lia|].
    unfold with_added_items. simpl. by rewrite <- (assoc_L (++)).
Qed.

Lemma add_in_batches_run playlist tracks w :
  add_in_batches playlist tracks w
  = (length tracks,
     with_added_items (added_items w ++ ((λ b, (playlist, b)) <$> batches tracks)) w).
Proof.
  unfold add_in_batches. rewrite add_loop_run.
  fold (batches tracks). by rewrite concat_batches.
Qed.

Lemma update_playlist_run w :
  update_playlist ARCHIVE_DAYS self w
  = let '(new_tracks, archive_tracks, w1) := update_playlist_collect ARCHIVE_DAYS self w in
    (tt,
     with_stdout
       (stdout w1
        ++ ["Updated New Noise playlist: " +:+ pretty (length new_tracks)
            +:+ " new songs added";
            "Updated New Noise Archive playlist: " +:+ pretty (length archive_tracks)
            +:+ " new songs added"])
       (with_added_items
          (added_items w1
           ++ ((λ b, (playlist_id self, b)) <$> batches new_tracks)
           ++ ((λ b, (archive_playlist_id self, b)) <$> batches archive_tracks))
          w1)).
Proof.
  unfold update_playlist. unfold mbind at 1, M_bind at 1.
  destruct (update_playlist_collect ARCHIVE_DAYS self w) as [[new_tracks archive_tracks] w1].
  unfold mbind, M_bind. rewrite !add_in_batches_run.
  unfold print, with_stdout, with_added_items. simpl.
  by rewrite <- !(assoc_L (++)).
Qed.

End Submit.

(** ** Claims on the update cycle *)

Lemma get_artist_ids_db w w' :
  artists_db w = artists_db w' →
  (ArtistDatabase.get_artist_ids w).1 = (ArtistDatabase.get_artist_ids w').1.
Proof.
  intros H. unfold ArtistDatabase.get_artist_ids. rewrite H.
  by destruct (ArtistDatabase.select_ids (artists_db w')).
Qed.

Lemma update_playlist_collect_disjoint ARCHIVE_DAYS self w :
  NoDup (candidates self (ArtistDatabase.get_artist_ids w).1).*1 →
  ∀ id, id ∈ (update_playlist_collect ARCHIVE_DAYS self w).1.1 →
        id ∉ (update_playlist_collect ARCHIVE_DAYS self w).1.2.
Proof.
  intros Hnodup.
  destruct (submseteq_Permutation _ _ (update_playlist_collect_candidates ARCHIVE_DAYS self w))
    as [k Hk].
  rewrite Hk in Hnodup. apply NoDup_app in Hnodup as [Hnodup _].
  unfold both in Hnodup. by apply NoDup_app in Hnodup as (_ & Hdisj & _).
Qed.

Lemma get_recent_tracks_capped TRACKS_PER_ARTIST self w :
  (length (get_recent_tracks TRACKS_PER_ARTIST self w).1 <= 50)%nat.
Proof.
  unfold get_recent_tracks, mbind, M_bind, mret, M_ret.
  destruct (ArtistDatabase.get_artist_ids w) as [artist_ids w1].
  destruct (for_in artist_ids _ [] w1) as [recent_tracks w2]. simpl.
  rewrite length_take. lia.
Qed.

Section Cycle.

Variable ARCHIVE_DAYS : Z.
Variable TRACKS_PER_ARTIST : nat.
Variable self : Tracker.

(** C1, amended. [update_playlist] sets no cap on the tracks of a cycle:
    every track collected for the current playlist is sent to it, in
    encounter order, in batches of at most 50 tracks (120 eligible tracks
    are sent as batches of 50, 50 and 20), and the count printed is the
    count of tracks collected. The cap of 50 is in [get_recent_tracks],
    which [update_playlist] does not call. *)
Theorem update_playlist_adds_every_track w :
  let new_tracks := (update_playlist_collect ARCHIVE_DAYS self w).1.1 in
  let archive_tracks := (update_playlist_collect ARCHIVE_DAYS self w).1.2 in
  let w1 := (update_playlist_collect ARCHIVE_DAYS self w).2 in
  let w' := (update_playlist ARCHIVE_DAYS self w).2 in
  added_items w'
    = added_items w
      ++ ((λ b, (playlist_id self, b)) <$> batches new_tracks)
      ++ ((λ b, (archive_playlist_id self, b)) <$> batches archive_tracks)
  ∧ concat (batches new_tracks) = new_tracks
  ∧ Forall (λ b, length b <= 50)%nat (batches new_tracks)
  ∧ stdout w'
    = stdout w1
      ++ ["Updated New Noise playlist: " +:+ pretty (length new_tracks)
          +:+ " new songs added";
          "Updated New Noise Archive playlist: " +:+ pretty (length archive_tracks)
          +:+ " new songs added"]
  ∧ (length (get_recent_tracks TRACKS_PER_ARTIST self w).1 <= 50)%nat.
Proof.
  intros new_tracks archive_tracks w1 w'. subst new_tracks archive_tracks w1 w'.
  rewrite update_playlist_run.
  destruct (quiet_update_playlist_collect ARCHIVE_DAYS self w) as (_ & _ & Hadded).
  destruct (update_playlist_collect ARCHIVE_DAYS self w) as [[new_tracks archive_tracks] w1].
  simpl in *. rewrite Hadded.
  split; [done|]. split; [apply concat_batches|]. split; [apply batches_at_most_50|].
  split; [done|]. apply get_recent_tracks_capped.
Qed.

(** C2, amended. A track id that is in the membership set of either
    playlist at the start of the cycle is in neither batch. Each visit of
    a track puts its id in at most one batch, so when the candidates of
    the cycle have pairwise distinct ids, no id is in both batches; an id
    the catalogue lists on two albums can be put in both. *)
Theorem batches_fresh_and_disjoint w :
  let new_tracks := (update_playlist_collect ARCHIVE_DAYS self w).1.1 in
  let archive_tracks := (update_playlist_collect ARCHIVE_DAYS self w).1.2 in
  (∀ id, id ∈ new_tracks ∨ id ∈ archive_tracks →
         (id ∉ current_track_ids self) ∧ (id ∉ archive_track_ids self))
  ∧ (NoDup (candidates self (ArtistDatabase.get_artist_ids w).1).*1 →
     ∀ id, id ∈ new_tracks → id ∉ archive_tracks).
Proof.
  split.
  - apply update_playlist_collect_fresh.
  - apply update_playlist_collect_disjoint.
Qed.

(** C4, amended. Every call of a predicate reads the clock anew: it takes
    the next reading and its answer is the answer at that reading. The
    batches of a cycle are therefore determined by the tracked artists,
    the catalogue, the playlists and now only when all the readings of
    the cycle show the same now. *)
Theorem frozen_clock_deterministic :
  (∀ rd w,
     ticks (_is_within_month ARCHIVE_DAYS rd w).2 = S (ticks w)
     ∧ ticks (is_track_from_current_week rd w).2 = S (ticks w)
     ∧ ticks (_is_within_archive_period ARCHIVE_DAYS rd w).2 = S (ticks w)
     ∧ (_is_within_month ARCHIVE_DAYS rd w).1
       = at_time (now w) (_is_within_month ARCHIVE_DAYS rd)
     ∧ (is_track_from_current_week rd w).1
       = at_time (now w) (is_track_from_current_week rd)
     ∧ (_is_within_archive_period ARCHIVE_DAYS rd w).1
       = at_time (now w) (_is_within_archive_period ARCHIVE_DAYS rd))
  ∧ (∀ today w1 w2,
       frozen today w1 → frozen today w2 → artists_db w1 = artists_db w2 →
       (update_playlist_collect ARCHIVE_DAYS self w1).1
       = (update_playlist_collect ARCHIVE_DAYS self w2).1).
Proof.
  split.
  - intros rd w. repeat split.
    + run. destruct (String.length rd =? 4)%nat; [done|]. by case_match.
    + run. destruct (String.length rd =? 4)%nat; [done|]. by case_match.
    + run. destruct (String.length rd =? 4)%nat; [done|]. by case_match.
    + by apply _is_within_month_now.
    + by apply is_track_from_current_week_now.
    + by apply _is_within_archive_period_now.
  - intros today w1 w2 H1 H2 Hdb.
    rewrite (update_playlist_collect_frozen ARCHIVE_DAYS self today w1 H1).
    rewrite (update_playlist_collect_frozen ARCHIVE_DAYS self today w2 H2).
    by rewrite (get_artist_ids_db w1 w2 Hdb).
Qed.

End Cycle.

Lemma now_frozen_world today : now (frozen_world today) = today.
Proof. done. Qed.

(** Two candidates that carry an id listed once are the same. *)
Lemma listed_once_same id (cs : list (string * string)) c1 c2 :
  listed_once id cs → c1 ∈ cs → c2 ∈ cs → c1.1 = id → c2.1 = id → c1 = c2.
Proof.
  unfold listed_once. intros Honce H1 H2 E1 E2.
  assert (c1 ∈ filter (λ c, c.1 = id) cs) as H1' by (by apply list_elem_of_filter).
  assert (c2 ∈ filter (λ c, c.1 = id) cs) as H2' by (by apply list_elem_of_filter).
  destruct (filter (λ c, c.1 = id) cs) as [|c [|c' l]]; simpl in Honce; try done.
  apply list_elem_of_singleton in H1', H2'. congruence.
Qed.

(** C7, amended. [_is_within_archive_period] holds exactly for a date that
    is not of year-only precision, parses, and lies between now minus
    [ARCHIVE_DAYS] days and now minus 7 days, both bounds included; a
    year-only date is always excluded. Consequently, with [ARCHIVE_DAYS]
    set to 30 and a clock that shows now all along the cycle, a candidate
    track whose album was released 10 days before now, whose id is in
    neither playlist and is listed once among the candidates, is in the
    archive batch and not in the new batch. *)
Theorem archive_period_window ARCHIVE_DAYS self :
  (∀ rd w,
     (_is_within_archive_period ARCHIVE_DAYS rd w).1 = true
     ↔ precision_of rd ≠ Year
       ∧ ∃ d, normalize rd = Some d
              ∧ dt_le (sub_days (now w) ARCHIVE_DAYS) d
              ∧ dt_le d (sub_days (now w) 7))
  ∧ (∀ today w artist_id album track,
       frozen today w →
       artist_id ∈ (ArtistDatabase.get_artist_ids w).1 →
       album ∈ artist_albums (sp self) artist_id →
       track ∈ album_tracks (sp self) (album_id album) →
       track_artist track = artist_id →
       precision_of (release_date album) ≠ Year →
       normalize (release_date album) = Some (midnight (toordinal today - 10)) →
       track_id track ∉ current_track_ids self →
       track_id track ∉ archive_track_ids self →
       listed_once (track_id track) (candidates self (ArtistDatabase.get_artist_ids w).1) →
       track_id track ∈ (update_playlist_collect 30 self w).1.2
       ∧ track_id track ∉ (update_playlist_collect 30 self w).1.1).
Proof.
  split.
  - intros rd w. rewrite precision_not_year.
    destruct (decide (String.length rd = 4%nat)) as [E|N].
    { rewrite _is_within_archive_period_year by done. simpl.
      split; [done | intros [? _]; done]. }
    destruct (normalize rd) as [d|] eqn:Hd.
    + rewrite (_is_within_archive_period_parsed ARCHIVE_DAYS rd d) by done. simpl.
      rewrite andb_true_iff, !dt_leb_le.
      assert (dt_le (sub_days (now w) ARCHIVE_DAYS) (clamp (now w) d)
              ∧ dt_le (clamp (now w) d) (sub_days (now w) 7)
              ↔ dt_le (sub_days (now w) ARCHIVE_DAYS) d
                ∧ dt_le d (sub_days (now w) 7)) as ->.
      { generalize (now w). clear. intros t. unfold clamp.
        destruct (t <? d)%dt eqn:E; [|done].
        apply dt_ltb_lt in E. split; intros [H1 H2]; exfalso; dt_arith. }
      split.
      * intros H. split; [done|]. by exists d.
      * intros (_ & d' & [= <-] & H). done.
    + rewrite _is_within_archive_period_invalid by done. simpl.
      split; [done | intros (_ & d & ? & _); done].
  - intros today w artist_id album track Hw Ha Hal Ht Hprimary Hp Hd Hcur Harc Honce.
    apply precision_not_year in Hp.
    set (cs := candidates self (ArtistDatabase.get_artist_ids w).1) in *.
    assert ((track_id track, release_date album) ∈ cs) as Hcand.
    { unfold cs, candidates. apply list_elem_of_bind. exists artist_id. split; [|done].
      unfold artist_candidates. apply list_elem_of_bind. exists album. split; [|done].
      unfold album_candidates. apply (list_elem_of_fmap_2' _ _ track); [|done].
      by apply list_elem_of_filter. }
    assert (goes_to_archive self 30 today (track_id track, release_date album)) as Harchive.
    { unfold goes_to_archive, eligible, at_time. simpl.
      rewrite (_is_within_month_parsed 30 _ _ _ Hp Hd),
        (is_track_from_current_week_parsed _ _ _ Hp Hd),
        (_is_within_archive_period_parsed 30 _ _ _ Hp Hd).
      rewrite now_frozen_world. simpl.
      repeat split; try done; clear; try apply andb_true_iff;
        rewrite ?andb_false_iff, <- ?not_true_iff_false, ?dt_leb_le; dt_arith. }
    rewrite (update_playlist_collect_frozen 30 self today w Hw). simpl. fold cs. split.
    + unfold archive_batch.
      apply (list_elem_of_fmap_2' fst _ (track_id track, release_date album)); [|done].
      by apply list_elem_of_filter.
    + unfold new_batch.
      intros ([id rd] & Hid & [Hnew Hc]%list_elem_of_filter)%list_elem_of_fmap.
      simpl in Hid. subst id.
      pose proof (listed_once_same _ _ _ _ Honce Hc Hcand eq_refl eq_refl) as [= ->].
      destruct Hnew as [_ Hweek]. destruct Harchive as (_ & Hnot & _).
      simpl in Hweek, Hnot. congruence.
Qed.

(** The three predicates on a release date that the program tries to
    parse and that does not parse: each returns false and none raises;
    [is_track_from_current_week] prints a warning, its two copies
    [_is_within_month] and [_is_within_archive_period] print nothing. In
    [update_playlist] the album is dropped by [_is_within_month], before any
    of its tracks is looked at, and the loop goes on with the albums that
    follow. *)
Theorem unparsable_release_date ARCHIVE_DAYS rd w :
  precision_of rd ≠ Year → normalize rd = None →
  is_track_from_current_week rd w
    = (false,
       with_stdout (stdout w ++ ["Warning: Invalid release date format: " +:+ rd])
                   (tick w))
  ∧ _is_within_month ARCHIVE_DAYS rd w = (false, tick w)
  ∧ _is_within_archive_period ARCHIVE_DAYS rd w = (false, tick w)
  ∧ (∀ self cur arc artist_id album albums acc,
       release_date album = rd →
       for_in (album :: albums)
              (update_playlist_album ARCHIVE_DAYS self cur arc artist_id) acc w
       = for_in albums
                (update_playlist_album ARCHIVE_DAYS self cur arc artist_id) acc (tick w)).
Proof.
  intros Hp Hd. apply precision_not_year in Hp.
  split; [by apply is_track_from_current_week_invalid|].
  split; [by apply _is_within_month_invalid|].
  split; [by apply _is_within_archive_period_invalid|].
  intros self cur arc artist_id album albums acc Hrd.
  rewrite for_in_cons. unfold update_playlist_album at 2 3.
  unfold mbind, M_bind. rewrite Hrd, _is_within_month_invalid by done. done.
Qed.

Lemma add_artist_new w artist_id name url :
  db_fault (artists_db w) = None →
  ArtistDatabase.has_id artist_id (db_rows (artists_db w)) = false →
  ArtistDatabase.add_artist artist_id name url w
  = (true, with_rows (db_rows (artists_db w) ++ [ArtistRow artist_id name url]) w).
Proof.
  intros Hfault Habsent. unfold ArtistDatabase.add_artist, ArtistDatabase.insert_or_ignore.
  rewrite Hfault. simpl. by rewrite Habsent.
Qed.

Lemma add_artist_present w artist_id name url :
  db_fault (artists_db w) = None →
  ArtistDatabase.has_id artist_id (db_rows (artists_db w)) = true →
  ArtistDatabase.add_artist artist_id name url w = (false, w).
Proof.
  intros Hfault Hpresent. unfold ArtistDatabase.add_artist, ArtistDatabase.insert_or_ignore.
  rewrite Hfault. simpl. rewrite Hpresent. simpl. f_equal.
  by destruct w as [? ? ? [] ?].
Qed.

(** C9. On a store that works and does not hold the id, [add_artist]
    returns true and inserts the row; adding the same id again at once
    returns false and leaves the store, and the rest of the world, as they
    were. *)
Theorem add_artist_twice w artist_id name url name' url' :
  db_fault (artists_db w) = None →
  ArtistDatabase.has_id artist_id (db_rows (artists_db w)) = false →
  let first := ArtistDatabase.add_artist artist_id name url w in
  let second := ArtistDatabase.add_artist artist_id name' url' first.2 in
  first.1 = true
  ∧ db_rows (artists_db first.2)
    = db_rows (artists_db w) ++ [ArtistRow artist_id name url]
  ∧ second.1 = false
  ∧ second.2 = first.2.
Proof.
  intros Hfault Habsent first second. subst first second.
  rewrite (add_artist_new w artist_id name url Hfault Habsent). cbn [fst snd].
  rewrite add_artist_present; [done..|].
  unfold ArtistDatabase.has_id. simpl. rewrite existsb_app. simpl.
  rewrite String.eqb_refl. by rewrite orb_true_r.
Qed.

(** ** Counterexamples and witnesses *)

Section Concrete.

Import Examples.
#[local] Open Scope string_scope.

(** C1, counterexample. With 120 eligible tracks, [update_playlist] sends
    all 120 to the current playlist, in three batches, and prints 120. *)
Lemma cap_not_applied :
  (update_playlist_collect 30 tracker120 world_friday).1 = (ids120, [])
  ∧ length ids120 = 120%nat
  ∧ added_items (update_playlist 30 tracker120 world_friday).2
    = [("new-noise", take 50 ids120);
       ("new-noise", take 50 (drop 50 ids120));
       ("new-noise", drop 100 ids120)]
  ∧ stdout (update_playlist 30 tracker120 world_friday).2
    = ["Updated New Noise playlist: 120 new songs added";
       "Updated New Noise Archive playlist: 0 new songs added"].
Proof. repeat split; vm_compute; reflexivity. Qed.

(** C2, counterexample. The track "T1" is on a single of this week and on
    an album of ten days ago: it is put in both batches. *)
Lemma track_in_both_batches :
  (update_playlist_collect 30 tracker_twice world_friday).1 = (["T1"], ["T1"; "T2"]).
Proof. vm_compute. reflexivity. Qed.

(** C2, witness: a catalogue whose candidates "T1", "T0" and "T7" are
    distinct. *)
Lemma batches_fresh_and_disjoint_witness :
  NoDup (candidates tracker_two_albums (ArtistDatabase.get_artist_ids world_friday).1).*1
  ∧ "T1" ∈ (update_playlist_collect 30 tracker_two_albums world_friday).1.1
  ∧ "T1" ∉ (update_playlist_collect 30 tracker_two_albums world_friday).1.2.
Proof.
  assert (NoDup (candidates tracker_two_albums
                   (ArtistDatabase.get_artist_ids world_friday).1).*1) as Hnodup.
  { refine (bool_decide_unpack _ _). vm_compute. exact I. }
  assert ("T1" ∈ (update_playlist_collect 30 tracker_two_albums world_friday).1.1)
    as Hnew.
  { vm_compute. apply list_elem_of_here. }
  split; [exact Hnodup|]. split; [exact Hnew|].
  exact (proj2 (batches_fresh_and_disjoint 30 tracker_two_albums world_friday)
           Hnodup "T1" Hnew).
Defined.

(** C4, counterexample. Two cycles start at the same now, Sunday night,
    with the same artists, catalogue and playlists; in the second the
    clock passes midnight after its first reading, and the album of
    Saturday, in the current week for the first cycle, is not for the
    second. *)
Lemma clock_read_again :
  now (world_at (λ _, sunday_night) ["A1"]) = now (world_at clock_over_midnight ["A1"])
  ∧ artists_db (world_at (λ _, sunday_night) ["A1"])
    = artists_db (world_at clock_over_midnight ["A1"])
  ∧ (update_playlist_collect 30 tracker_two_albums
       (world_at (λ _, sunday_night) ["A1"])).1 = (["T1"], ["T7"])
  ∧ (update_playlist_collect 30 tracker_two_albums
       (world_at clock_over_midnight ["A1"])).1 = ([], ["T7"]).
Proof. repeat split; vm_compute; reflexivity. Qed.

(** C4, witness: the same cycle started after one more reading of a clock
    that shows Friday all along. *)
Lemma frozen_clock_deterministic_witness :
  frozen friday world_friday
  ∧ frozen friday (tick world_friday)
  ∧ (update_playlist_collect 30 tracker_two_albums world_friday).1
    = (update_playlist_collect 30 tracker_two_albums (tick world_friday)).1.
Proof.
  assert (frozen friday world_friday) as H1 by (intros n; reflexivity).
  assert (frozen friday (tick world_friday)) as H2 by (intros n; reflexivity).
  split; [exact H1|]. split; [exact H2|].
  exact (proj2 (frozen_clock_deterministic 30 tracker_two_albums)
           friday world_friday (tick world_friday) H1 H2 eq_refl).
Defined.

(** C7, counterexample. On 15 January 2024 the year "2024", normalized to
    1 January, lies between now minus 30 days and now minus 7 days, and
    [_is_within_archive_period] is false. On Friday 3 May 2024, of the
    tracks of albums released 10 days before, "T8", credited first to
    another artist, is in no batch, and "T1", listed on a single of this
    week too, is in the new batch as well. *)
Lemma year_only_in_archive_window :
  normalize "2024" = Some (datetime_at 2024 1 1 0 0 0)
  ∧ dt_le (sub_days mid_january 30) (datetime_at 2024 1 1 0 0 0)
  ∧ dt_le (datetime_at 2024 1 1 0 0 0) (sub_days mid_january 7)
  ∧ (_is_within_archive_period 30 "2024" (world_at (λ _, mid_january) [])).1 = false
  ∧ normalize "2024-04-23" = Some (midnight (toordinal friday - 10))
  ∧ (update_playlist_collect 30 tracker_two_albums world_friday).1 = (["T1"], ["T7"])
  ∧ (update_playlist_collect 30 tracker_twice world_friday).1 = (["T1"], ["T1"; "T2"]).
Proof.
  split; [reflexivity|].
  split; [apply dt_leb_le; reflexivity|].
  split; [apply dt_leb_le; reflexivity|].
  repeat split; vm_compute; reflexivity.
Qed.

(** C7, witness: on Friday 3 May 2024 the track "T2" of the album of
    Tuesday 23 April, in a catalogue that lists another id, "T1", on two
    albums. *)
Lemma archive_period_window_witness :
  normalize "2024-04-23" = Some (midnight (toordinal friday - 10))
  ∧ listed_once "T2" (candidates tracker_twice
                        (ArtistDatabase.get_artist_ids world_friday).1)
  ∧ ¬ NoDup (candidates tracker_twice (ArtistDatabase.get_artist_ids world_friday).1).*1
  ∧ "T2" ∈ (update_playlist_collect 30 tracker_twice world_friday).1.2
  ∧ "T2" ∉ (update_playlist_collect 30 tracker_twice world_friday).1.1.
Proof.
  assert (listed_once "T2" (candidates tracker_twice
                              (ArtistDatabase.get_artist_ids world_friday).1)) as Honce.
  { vm_compute. reflexivity. }
  split; [reflexivity|]. split; [exact Honce|]. split.
  { refine (bool_decide_eq_false_1 _ _). vm_compute. reflexivity. }
  apply (proj2 (archive_period_window 30 tracker_twice)
           friday world_friday "A1" (Album "lp" "2024-04-23") (Track "T2" "A1")).
  - intros n. reflexivity.
  - vm_compute. apply list_elem_of_here.
  - vm_compute. apply list_elem_of_further, list_elem_of_here.
  - vm_compute. apply list_elem_of_further, list_elem_of_here.
  - reflexivity.
  - vm_compute. discriminate.
  - reflexivity.
  - refine (bool_decide_eq_false_1 _ _). vm_compute. reflexivity.
  - refine (bool_decide_eq_false_1 _ _). vm_compute. reflexivity.
  - exact Honce.
Defined.

(** C10, witness: the album of Tuesday 23 April 2024 on Friday 3 May 2024,
    the two predicates being called one after the other. *)
Lemma week_and_archive_period_disjoint_witness :
  now world_friday = now (tick world_friday)
  ∧ ¬ ((is_track_from_current_week "2024-04-23" world_friday).1 = true
       ∧ (_is_within_archive_period 30 "2024-04-23" (tick world_friday)).1 = true).
Proof.
  split; [reflexivity|].
  exact (week_and_archive_period_disjoint 30 "2024-04-23" world_friday
           (tick world_friday) eq_refl).
Defined.

(** C8. The release date "not-a-date" does not parse. The warning that
    [is_track_from_current_week] prints for it is missing from
    [_is_within_month] and [_is_within_archive_period], which return false
    and print nothing; [update_playlist] asks [_is_within_month] first and
    drops the album, so a cycle that meets this date prints no warning:
    it adds the track of the album that follows and prints its two
    counts. *)
Lemma silent_on_unparsable_date :
  precision_of "not-a-date" = FullDate
  ∧ normalize "not-a-date" = None
  ∧ is_track_from_current_week "not-a-date" world_friday
    = (false,
       with_stdout ["Warning: Invalid release date format: not-a-date"]
                   (tick world_friday))
  ∧ _is_within_month 30 "not-a-date" world_friday = (false, tick world_friday)
  ∧ _is_within_archive_period 30 "not-a-date" world_friday = (false, tick world_friday)
  ∧ stdout (tick world_friday) = []
  ∧ (update_playlist_collect 30 tracker_bad_date world_friday).1 = (["T1"], [])
  ∧ stdout (update_playlist 30 tracker_bad_date world_friday).2
    = ["Updated New Noise playlist: 1 new songs added";
       "Updated New Noise Archive playlist: 0 new songs added"].
Proof. repeat split; vm_compute; reflexivity. Qed.

(** The same at "not-a-date" on Friday 3 May 2024. *)
Lemma unparsable_release_date_witness :
  precision_of "not-a-date" ≠ Year
  ∧ normalize "not-a-date" = None
  ∧ is_track_from_current_week "not-a-date" world_friday
    = (false,
       with_stdout ["Warning: Invalid release date format: not-a-date"]
                   (tick world_friday)).
Proof.
  assert (precision_of "not-a-date" ≠ Year) as Hp by (vm_compute; discriminate).
  split; [exact Hp|]. split; [reflexivity|].
  exact (proj1 (unparsable_release_date 30 "not-a-date" world_friday Hp eq_refl)).
Defined.

(** C9, witness: a new artist added twice to the store of one artist. *)
Lemma add_artist_twice_witness :
  db_fault (artists_db world_friday) = None
  ∧ ArtistDatabase.has_id "A2" (db_rows (artists_db world_friday)) = false
  ∧ (ArtistDatabase.add_artist "A2" "Second" "https://open.spotify.com/artist/A2"
       world_friday).1 = true
  ∧ (ArtistDatabase.add_artist "A2" "Second" "https://open.spotify.com/artist/A2"
       (ArtistDatabase.add_artist "A2" "Second" "https://open.spotify.com/artist/A2"
          world_friday).2).1 = false.
Proof.
  split; [reflexivity|]. split; [reflexivity|].
  pose proof (add_artist_twice world_friday "A2" "Second"
                "https://open.spotify.com/artist/A2" "Second"
                "https://open.spotify.com/artist/A2" eq_refl eq_refl)
    as (H1 & _ & H2 & _).
  split; [exact H1 | exact H2].
Defined.

End Concrete.

(** ** More on the artist store *)

Lemma has_id_true artist_id (rows : list artist_row) :
  ArtistDatabase.has_id artist_id rows = true ↔ artist_id ∈ row_id <$> rows.
Proof.
  unfold ArtistDatabase.has_id. rewrite existsb_exists, list_elem_of_fmap. split.
  - intros (r & Hr & Heq). apply String.eqb_eq in Heq. exists r.
    split; [done|]. by apply list_elem_of_In.
  - intros (r & -> & Hr). exists r. split; [by apply list_elem_of_In|].
    apply String.eqb_refl.
Qed.

Lemma has_id_false artist_id (rows : list artist_row) :
  ArtistDatabase.has_id artist_id rows = false ↔ artist_id ∉ row_id <$> rows.
Proof. rewrite <- has_id_true. by destruct (ArtistDatabase.has_id artist_id rows). Qed.

Lemma filter_other_ids_absent artist_id (rows : list artist_row) :
  artist_id ∉ row_id <$> rows → filter (λ r, row_id r ≠ artist_id) rows = rows.
Proof.
  induction rows as [|r rows IH]; [done|]. rewrite fmap_cons, not_elem_of_cons.
  intros [Hne Hrows]. rewrite filter_cons, decide_True by done. by rewrite IH.
Qed.

Lemma filter_other_ids_present artist_id (rows : list artist_row) :
  artist_id ∈ row_id <$> rows →
  (length (filter (λ r, row_id r ≠ artist_id) rows) < length rows)%nat.
Proof.
  induction rows as [|r rows IH]; [by intros ?%elem_of_nil|].
  rewrite fmap_cons, filter_cons. intros Hin.
  pose proof (length_filter (λ r, row_id r ≠ artist_id) rows).
  destruct (decide (row_id r ≠ artist_id)) as [Hne|Heq]; simpl; [|lia].
  apply elem_of_cons in Hin as [->|Hin]; [done|]. specialize (IH Hin). lia.
Qed.

Lemma with_rows_same w : with_rows (db_rows (artists_db w)) w = w.
Proof. by destruct w as [? ? ? [] ?]. Qed.

Lemma remove_artist_run w artist_id :
  db_fault (artists_db w) = None →
  ArtistDatabase.remove_artist artist_id w
  = (ArtistDatabase.has_id artist_id (db_rows (artists_db w)),
     with_rows (filter (λ r, row_id r ≠ artist_id) (db_rows (artists_db w))) w).
Proof.
  intros Hfault. unfold ArtistDatabase.remove_artist, ArtistDatabase.delete_where_id.
  rewrite Hfault. f_equal.
  destruct (ArtistDatabase.has_id artist_id (db_rows (artists_db w))) eqn:E.
  - apply has_id_true, filter_other_ids_present in E. apply Nat.ltb_lt. lia.
  - apply has_id_false, filter_other_ids_absent in E. rewrite E.
    apply Nat.ltb_ge. lia.
Qed.

(** X1. On a store that works, [remove_artist] returns true exactly when
    the id was stored, and removing an id that is not stored changes
    nothing. *)
Theorem remove_artist_reports_presence w artist_id :
  db_fault (artists_db w) = None →
  ((ArtistDatabase.remove_artist artist_id w).1 = true
   ↔ artist_id ∈ (ArtistDatabase.get_artist_ids w).1)
  ∧ (artist_id ∉ (ArtistDatabase.get_artist_ids w).1 →
     ArtistDatabase.remove_artist artist_id w = (false, w)).
Proof.
  intros Hfault. rewrite remove_artist_run by done.
  rewrite (get_artist_ids_stored w Hfault). simpl. split; [apply has_id_true|].
  intros Habsent. rewrite filter_other_ids_absent by done.
  apply has_id_false in Habsent. by rewrite Habsent, with_rows_same.
Qed.

(** X2. On a store that works, removing an artist right after adding it,
    when its id was not stored before, returns true and gives back the
    world there was before the addition. *)
Theorem add_then_remove_artist w artist_id name url :
  db_fault (artists_db w) = None →
  ArtistDatabase.has_id artist_id (db_rows (artists_db w)) = false →
  ArtistDatabase.remove_artist artist_id
    (ArtistDatabase.add_artist artist_id name url w).2
  = (true, w).
Proof.
  intros Hfault Habsent. rewrite add_artist_new by done. cbn [snd].
  rewrite remove_artist_run by done. simpl.
  apply has_id_false in Habsent as Hnotin.
  f_equal.
  - apply has_id_true. rewrite fmap_app. apply elem_of_app. right.
    apply list_elem_of_here.
  - rewrite filter_app, filter_other_ids_absent by done.
    rewrite filter_cons, decide_False, filter_nil, app_nil_r by (simpl; tauto).
    unfold with_rows. simpl. by destruct w as [? ? ? [] ?]; simpl in *; subst.
Qed.

(** X3. Whatever the arguments and whether the store works or not,
    [add_artist] and [remove_artist] keep the ids of the table pairwise
    distinct. *)
Theorem artist_ids_stay_distinct w artist_id name url :
  NoDup (row_id <$> db_rows (artists_db w)) →
  NoDup (row_id <$> db_rows (artists_db (ArtistDatabase.add_artist artist_id name url w).2))
  ∧ NoDup (row_id <$> db_rows (artists_db (ArtistDatabase.remove_artist artist_id w).2)).
Proof.
  intros Hnodup. split.
  - unfold ArtistDatabase.add_artist, ArtistDatabase.insert_or_ignore.
    destruct (db_fault (artists_db w)); [done|]. simpl.
    destruct (ArtistDatabase.has_id artist_id (db_rows (artists_db w))) eqn:E; [done|].
    simpl. rewrite fmap_app. apply NoDup_app. split; [done|]. split; [|apply NoDup_singleton].
    intros id Hid [->|[]%elem_of_nil]%elem_of_cons. by apply has_id_false in E.
  - unfold ArtistDatabase.remove_artist, ArtistDatabase.delete_where_id.
    destruct (db_fault (artists_db w)); [done|]. simpl.
    induction (db_rows (artists_db w)) as [|r rows IH]; [done|].
    rewrite fmap_cons in Hnodup. apply NoDup_cons in Hnodup as [Hr Hrows].
    rewrite filter_cons. destruct (decide (row_id r ≠ artist_id)); [|by apply IH].
    rewrite fmap_cons. apply NoDup_cons. split; [|by apply IH].
    intros (r' & Heq & Hr')%list_elem_of_fmap. apply list_elem_of_filter in Hr' as [_ Hr'].
    apply Hr. rewrite Heq. by apply list_elem_of_fmap_2.
Qed.

(** X4. On a store that works, the ids [get_artist_ids] lists after
    [add_artist] are the id added and the ids listed before, and the ids
    listed after [remove_artist] are the ids listed before but the one
    removed. *)
Theorem artist_ids_after w artist_id name url :
  db_fault (artists_db w) = None →
  (∀ id, id ∈ (ArtistDatabase.get_artist_ids
                 (ArtistDatabase.add_artist artist_id name url w).2).1
         ↔ id = artist_id ∨ id ∈ (ArtistDatabase.get_artist_ids w).1)
  ∧ (∀ id, id ∈ (ArtistDatabase.get_artist_ids
                   (ArtistDatabase.remove_artist artist_id w).2).1
           ↔ id ≠ artist_id ∧ id ∈ (ArtistDatabase.get_artist_ids w).1).
Proof.
  intros Hfault. split; intros id.
  - rewrite (get_artist_ids_stored w Hfault).
    destruct (ArtistDatabase.has_id artist_id (db_rows (artists_db w))) eqn:E.
    + rewrite add_artist_present by done. cbn [snd].
      rewrite (get_artist_ids_stored w Hfault).
      apply has_id_true in E. split; [by right | by intros [->|?]].
    + rewrite add_artist_new by done. cbn [snd].
      rewrite get_artist_ids_stored by done. simpl.
      rewrite fmap_app, elem_of_app. simpl. rewrite list_elem_of_singleton. tauto.
  - rewrite remove_artist_run by done. cbn [snd].
    rewrite !get_artist_ids_stored by done.
    simpl. rewrite !list_elem_of_fmap. split.
    + intros (r & -> & [Hne Hr]%list_elem_of_filter). split; [done|]. by exists r.
    + intros (Hne & r & -> & Hr). exists r. split; [done|]. by apply list_elem_of_filter.
Qed.

(** ** More on the update cycle *)

Lemma elem_of_candidates self artist_ids id rd :
  (id, rd) ∈ candidates self artist_ids
  ↔ ∃ a al t, a ∈ artist_ids ∧ al ∈ artist_albums (sp self) a
              ∧ t ∈ album_tracks (sp self) (album_id al)
              ∧ track_artist t = a ∧ track_id t = id ∧ release_date al = rd.
Proof.
  unfold candidates, artist_candidates, album_candidates. split.
  - intros (a & (al & (t & [= -> ->] & [Hp Ht]%list_elem_of_filter)%list_elem_of_fmap
                 & Hal)%list_elem_of_bind & Ha)%list_elem_of_bind.
    by exists a, al, t.
  - intros (a & al & t & Ha & Hal & Ht & Hp & <- & <-).
    apply list_elem_of_bind. exists a. split; [|done].
    apply list_elem_of_bind. exists al. split; [|done].
    apply (list_elem_of_fmap_2' _ _ t); [|done]. by apply list_elem_of_filter.
Qed.

(** X5. A track id is put in a batch only if it is the id of a track that
    an album of a tracked artist lists with that artist credited first: a
    track on which a tracked artist is only featured, or that no listed
    album holds, is never added. The two batches together are not longer
    than the list of candidates. *)
Theorem collected_ids_are_candidates ARCHIVE_DAYS self w :
  (∀ id, id ∈ (update_playlist_collect ARCHIVE_DAYS self w).1.1
         ∨ id ∈ (update_playlist_collect ARCHIVE_DAYS self w).1.2 →
     ∃ a al t, a ∈ (ArtistDatabase.get_artist_ids w).1
               ∧ al ∈ artist_albums (sp self) a
               ∧ t ∈ album_tracks (sp self) (album_id al)
               ∧ track_artist t = a ∧ track_id t = id)
  ∧ (length (update_playlist_collect ARCHIVE_DAYS self w).1.1
     + length (update_playlist_collect ARCHIVE_DAYS self w).1.2
     <= length (candidates self (ArtistDatabase.get_artist_ids w).1))%nat.
Proof.
  pose proof (update_playlist_collect_candidates ARCHIVE_DAYS self w) as Hsub.
  split.
  - intros id Hid.
    assert (id ∈ both (update_playlist_collect ARCHIVE_DAYS self w).1) as Hboth.
    { unfold both. apply elem_of_app. tauto. }
    apply (elem_of_submseteq _ _ _ Hboth) in Hsub.
    apply list_elem_of_fmap in Hsub as ([id' rd] & -> & Hc).
    apply elem_of_candidates in Hc as (a & al & t & ? & ? & ? & ? & ? & _).
    by exists a, al, t.
  - apply submseteq_length in Hsub. unfold both in Hsub.
    by rewrite length_app, length_fmap in Hsub.
Qed.

Lemma _is_within_month_true_parses ARCHIVE_DAYS rd w :
  (_is_within_month ARCHIVE_DAYS rd w).1 = true →
  String.length rd ≠ 4%nat ∧ ∃ d, normalize rd = Some d.
Proof.
  destruct (decide (String.length rd = 4%nat)) as [E|N].
  { by rewrite _is_within_month_year. }
  destruct (normalize rd) as [d|] eqn:Hd; [by eauto|].
  by rewrite _is_within_month_invalid.
Qed.

Lemma only_ticked_refl w : only_ticked w w.
Proof. by destruct w. Qed.

Lemma only_ticked_tick w0 w : only_ticked w0 w → only_ticked w0 (tick w).
Proof. unfold only_ticked, tick. intros ->. done. Qed.

Lemma update_playlist_track_only_ticked ARCHIVE_DAYS cur arc a rd d t acc w0 w :
  String.length rd ≠ 4%nat → normalize rd = Some d →
  only_ticked w0 w →
  only_ticked w0 (update_playlist_track ARCHIVE_DAYS cur arc a rd t acc w).2.
Proof.
  intros Hlen Hd Hw. unfold update_playlist_track. destruct acc as [n r].
  destruct (negb _); [done|]. destruct (_ || _); [done|].
  unfold mbind, M_bind, mret, M_ret.
  rewrite (is_track_from_current_week_parsed rd d w Hlen Hd).
  destruct (_ && _); simpl; [by apply only_ticked_tick|].
  rewrite (_is_within_archive_period_parsed ARCHIVE_DAYS rd d _ Hlen Hd).
  destruct (_ && _); simpl; by do 2 apply only_ticked_tick.
Qed.

Lemma update_playlist_album_only_ticked ARCHIVE_DAYS self cur arc a al acc w0 w :
  only_ticked w0 w →
  only_ticked w0 (update_playlist_album ARCHIVE_DAYS self cur arc a al acc w).2.
Proof.
  intros Hw. unfold update_playlist_album, mbind, M_bind, mret, M_ret.
  pose proof (_is_within_month_true_parses ARCHIVE_DAYS (release_date al) w) as Hparse.
  assert (only_ticked w0 (_is_within_month ARCHIVE_DAYS (release_date al) w).2) as Hw1.
  { destruct (decide (String.length (release_date al) = 4%nat)) as [E|N].
    { rewrite _is_within_month_year by done. by apply only_ticked_tick. }
    destruct (normalize (release_date al)) as [d|] eqn:Hd.
    - rewrite (_is_within_month_parsed _ _ d) by done. by apply only_ticked_tick.
    - rewrite _is_within_month_invalid by done. by apply only_ticked_tick. }
  destruct (_is_within_month ARCHIVE_DAYS (release_date al) w) as [[] w1];
    simpl in *; [|done].
  destruct Hparse as (Hlen & d & Hd); [done|].
  apply (for_in_invariant (λ _ w, only_ticked w0 w)); [|done].
  intros t acc' w' _. by apply (update_playlist_track_only_ticked _ _ _ _ _ d).
Qed.

(** X6. On a store that works, collecting the tracks of a cycle does
    nothing but read the clock: whatever the release dates of the
    catalogue and whatever the clock shows, it prints nothing, so the
    warning of [is_track_from_current_week] about a release date never
    comes out of [update_playlist], which prints its two counts and no
    other line. *)
Theorem update_playlist_prints_two_lines ARCHIVE_DAYS self w :
  db_fault (artists_db w) = None →
  (update_playlist_collect ARCHIVE_DAYS self w).2
    = with_ticks (ticks (update_playlist_collect ARCHIVE_DAYS self w).2) w
  ∧ stdout (update_playlist ARCHIVE_DAYS self w).2
    = stdout w
      ++ ["Updated New Noise playlist: "
          +:+ pretty (length (update_playlist_collect ARCHIVE_DAYS self w).1.1)
          +:+ " new songs added";
          "Updated New Noise Archive playlist: "
          +:+ pretty (length (update_playlist_collect ARCHIVE_DAYS self w).1.2)
          +:+ " new songs added"].
Proof.
  intros Hfault.
  assert (only_ticked w (update_playlist_collect ARCHIVE_DAYS self w).2) as Hticked.
  { unfold update_playlist_collect, mbind, M_bind.
    unfold ArtistDatabase.get_artist_ids, ArtistDatabase.select_ids. rewrite Hfault.
    apply (for_in_invariant (λ _ w', only_ticked w w')); [|apply only_ticked_refl].
    intros a acc w' _ Hw'. unfold update_playlist_artist.
    apply (for_in_invariant (λ _ w', only_ticked w w')); [|done].
    intros al acc' w'' _. apply update_playlist_album_only_ticked. }
  split; [exact Hticked|].
  rewrite update_playlist_run.
  destruct (update_playlist_collect ARCHIVE_DAYS self w) as [[n r] w1]. simpl in *.
  by rewrite Hticked.
Qed.

(** X7. When the store cannot be read the cycle does not fail: it prints
    the database error, reads no clock, sends nothing to Spotify and prints
    two counts of zero. *)
Theorem update_playlist_store_fault ARCHIVE_DAYS self w e :
  db_fault (artists_db w) = Some e →
  update_playlist ARCHIVE_DAYS self w
  = (tt,
     with_stdout
       (stdout w ++ ["Database error: " +:+ e;
                     "Updated New Noise playlist: 0 new songs added";
                     "Updated New Noise Archive playlist: 0 new songs added"])
       w).
Proof.
  intros Hfault. rewrite update_playlist_run.
  unfold update_playlist_collect, mbind, M_bind.
  unfold ArtistDatabase.get_artist_ids, ArtistDatabase.select_ids. rewrite Hfault.
  unfold mbind, M_bind, print, mret, M_ret. simpl.
  f_equal. unfold with_stdout, with_added_items. simpl.
  destruct w. simpl. by rewrite app_nil_r, <- (assoc_L (++)).
Qed.

Lemma _is_within_archive_period_short ARCHIVE_DAYS rd w :
  ARCHIVE_DAYS < 7 → (_is_within_archive_period ARCHIVE_DAYS rd w).1 = false.
Proof.
  intros Hshort. destruct (decide (String.length rd = 4%nat)) as [E|N].
  { by rewrite _is_within_archive_period_year. }
  destruct (normalize rd) as [d|] eqn:Hd.
  - rewrite (_is_within_archive_period_parsed _ _ d) by done. simpl.
    apply not_true_iff_false. rewrite andb_true_iff, !dt_leb_le.
    generalize (clamp (now w) d) (now w). clear -Hshort. intros c t [H1 H2].
    dt_arith.
  - by rewrite _is_within_archive_period_invalid.
Qed.

Lemma _is_within_month_negative ARCHIVE_DAYS rd w :
  ARCHIVE_DAYS < 0 → (_is_within_month ARCHIVE_DAYS rd w).1 = false.
Proof.
  intros Hneg. destruct (decide (String.length rd = 4%nat)) as [E|N].
  { by rewrite _is_within_month_year. }
  destruct (normalize rd) as [d|] eqn:Hd.
  - rewrite (_is_within_month_parsed _ _ d) by done. simpl.
    apply not_true_iff_false. rewrite dt_leb_le.
    pose proof (clamp_le (now w) d) as Hle. revert Hle.
    generalize (clamp (now w) d) (now w). clear -Hneg. intros c t. dt_arith.
  - by rewrite _is_within_month_invalid.
Qed.

(** X8. The archive batch needs [ARCHIVE_DAYS] to be at least 7: with a
    smaller value no track is ever put in it, and with a negative value no
    track is put in either batch, whatever the catalogue and the clock. *)
Theorem short_archive_window ARCHIVE_DAYS self w :
  (ARCHIVE_DAYS < 7 → (update_playlist_collect ARCHIVE_DAYS self w).1.2 = [])
  ∧ (ARCHIVE_DAYS < 0 → (update_playlist_collect ARCHIVE_DAYS self w).1 = ([], [])).
Proof.
  split; intros Hshort; unfold update_playlist_collect, mbind, M_bind;
    destruct (ArtistDatabase.get_artist_ids w) as [artist_ids w1].
  - apply (for_in_invariant (λ acc _, acc.2 = [])); [|done].
    intros a acc0 w0 _ Hacc0. unfold update_playlist_artist.
    apply (for_in_invariant (λ acc _, acc.2 = [])); [|done].
    intros al acc1 w2 _ Hacc1. unfold update_playlist_album, mbind, M_bind, mret, M_ret.
    destruct (_is_within_month ARCHIVE_DAYS (release_date al) w2) as [[] w3]; [|done].
    simpl. apply (for_in_invariant (λ acc _, acc.2 = [])); [|done].
    intros t [n r] w4 _ Hacc. simpl in Hacc. subst r.
    unfold update_playlist_track, mbind, M_bind, mret, M_ret.
    destruct (negb _); [done|]. destruct (_ || _); [done|].
    destruct (is_track_from_current_week (release_date al) w4) as [[] w5]; [done|].
    pose proof (_is_within_archive_period_short ARCHIVE_DAYS (release_date al) w5 Hshort).
    by destruct (_is_within_archive_period ARCHIVE_DAYS (release_date al) w5) as [[] w6].
  - apply (for_in_invariant (λ acc _, acc = ([], []))); [|done].
    intros a acc0 w0 _ ->. unfold update_playlist_artist.
    apply (for_in_invariant (λ acc _, acc = ([], []))); [|done].
    intros al acc1 w2 _ ->.
    unfold update_playlist_album, mbind, M_bind, mret, M_ret.
    pose proof (_is_within_month_negative ARCHIVE_DAYS (release_date al) w2 Hshort).
    by destruct (_is_within_month ARCHIVE_DAYS (release_date al) w2) as [[] w3].
Qed.

Lemma gap_date_unclassified ARCHIVE_DAYS today rd d :
  precision_of rd ≠ Year → normalize rd = Some d →
  dt_lt (sub_days today 7) d → dt_lt d (start_of_week today) →
  at_time today (is_track_from_current_week rd) = false
  ∧ at_time today (_is_within_archive_period ARCHIVE_DAYS rd) = false.
Proof.
  intros Hp%precision_not_year Hd Hafter Hbefore. unfold at_time.
  rewrite (is_track_from_current_week_parsed _ _ _ Hp Hd),
    (_is_within_archive_period_parsed ARCHIVE_DAYS _ _ _ Hp Hd).
  rewrite now_frozen_world. simpl.
  rewrite !andb_false_iff, <- !not_true_iff_false, !dt_leb_le.
  revert Hafter Hbefore. clear. intros Hafter Hbefore.
  split; [left | right]; dt_arith.
Qed.

(** X9. Between the two windows there is a gap: under a clock that shows
    now all along the cycle, a track whose albums are all dated after now
    minus 7 days and before the start of the current week (Monday of this
    week at the time of day of now) is put in neither batch, whatever
    [ARCHIVE_DAYS] is. *)
Theorem week_gap ARCHIVE_DAYS self today w id :
  frozen today w →
  (∀ rd, (id, rd) ∈ candidates self (ArtistDatabase.get_artist_ids w).1 →
         precision_of rd ≠ Year
         ∧ ∃ d, normalize rd = Some d
                ∧ dt_lt (sub_days today 7) d ∧ dt_lt d (start_of_week today)) →
  (id ∉ (update_playlist_collect ARCHIVE_DAYS self w).1.1)
  ∧ (id ∉ (update_playlist_collect ARCHIVE_DAYS self w).1.2).
Proof.
  intros Hw Hgap. rewrite (update_playlist_collect_frozen ARCHIVE_DAYS self today w Hw).
  simpl. unfold new_batch, archive_batch.
  split; intros ([id' rd] & -> & [Hgo Hc]%list_elem_of_filter)%list_elem_of_fmap;
    simpl in *; destruct (Hgap rd Hc) as (Hp & d & Hd & Hafter & Hbefore);
    destruct (gap_date_unclassified ARCHIVE_DAYS today rd d Hp Hd Hafter Hbefore)
      as [Hweek Hperiod].
  - destruct Hgo as [_ Hgo]. simpl in Hgo. congruence.
  - destruct Hgo as (_ & _ & Hgo). simpl in Hgo. congruence.
Qed.

(** ** [get_recent_tracks] *)

(** A loop whose body appends [g x] and leaves the world alone appends
    [xs ≫= g]. *)
Lemma for_in_append {A B} (g : A → list B) (body : A → list B → M (list B)) xs :
  (∀ x acc w, body x acc w = (acc ++ g x, w)) →
  ∀ acc w, for_in xs body acc w = (acc ++ (xs ≫= g), w).
Proof.
  intros Hbody. induction xs as [|x xs IH]; intros acc w.
  - simpl. by rewrite app_nil_r.
  - rewrite for_in_cons, Hbody. cbn [fst snd]. rewrite IH, bind_cons.
    by rewrite (assoc_L (++)).
Qed.

(** X10. [get_recent_tracks] returns the first 50, in encounter order, of
    the ids of the tracks credited first to a tracked artist among the
    first [TRACKS_PER_ARTIST] tracks of each album listed for that artist.
    Release dates and the playlists play no part, and the world is left as
    [get_artist_ids] leaves it: no clock is read and nothing is sent. *)
Theorem get_recent_tracks_run TRACKS_PER_ARTIST self w :
  get_recent_tracks TRACKS_PER_ARTIST self w
  = (take 50 (recent_track_ids TRACKS_PER_ARTIST self (ArtistDatabase.get_artist_ids w).1),
     (ArtistDatabase.get_artist_ids w).2).
Proof.
  unfold get_recent_tracks, recent_track_ids.
  unfold mbind at 1 2, M_bind at 1 2.
  destruct (ArtistDatabase.get_artist_ids w) as [artist_ids w1]. cbn [fst snd].
  rewrite (for_in_append
             (λ a, artist_albums (sp self) a ≫= λ al,
                track_id <$> filter (λ t, track_artist t = a)
                  (take TRACKS_PER_ARTIST (album_tracks (sp self) (album_id al))))).
  { done. }
  intros a acc w'.
  apply (for_in_append
           (λ al, track_id <$> filter (λ t, track_artist t = a)
              (take TRACKS_PER_ARTIST (album_tracks (sp self) (album_id al))))).
  intros al acc' w''.
  rewrite (for_in_append (λ t, if decide (track_artist t = a) then [track_id t] else [])).
  2:{ intros t acc'' w'''. destruct (String.eqb_spec a (track_artist t)) as [<-|Hne].
      - by rewrite decide_True.
      - rewrite decide_False by done. by rewrite app_nil_r. }
  do 2 f_equal.
  induction (take TRACKS_PER_ARTIST _) as [|t ts IH]; [done|].
  rewrite bind_cons, filter_cons. destruct (decide (track_artist t = a)); [|done].
  rewrite fmap_cons. simpl. by f_equal.
Qed.

(** ** Adding and removing artists by name *)

Section MenuFacts.

#[local] Set Default Proof Using "Type".

Variable search : string → list artist_item.
Variable lower : string → string.

(** X11. [add_artist] returns true exactly when it inserted a row: the
    search has a result, the store works and the id of the first result
    was not stored. The row inserted holds that id and url with the name
    as it was typed; otherwise the table is left as it was. *)
Theorem add_artist_true_iff_inserted artist_name w :
  ((add_artist search artist_name w).1 = true
   ↔ ∃ artist rest,
       search artist_name = artist :: rest
       ∧ db_fault (artists_db w) = None
       ∧ ArtistDatabase.has_id (artist_item_id artist) (db_rows (artists_db w)) = false
       ∧ db_rows (artists_db (add_artist search artist_name w).2)
         = db_rows (artists_db w)
           ++ [ArtistRow (artist_item_id artist) artist_name (artist_item_url artist)])
  ∧ ((add_artist search artist_name w).1 = false →
     db_rows (artists_db (add_artist search artist_name w).2) = db_rows (artists_db w)).
Proof.
  unfold add_artist. destruct (search artist_name) as [|artist rest].
  { simpl. split; [|done]. split; [done|]. by intros (? & ? & ? & _). }
  unfold mbind, M_bind.
  destruct (db_fault (artists_db w)) as [e|] eqn:Hfault.
  { unfold ArtistDatabase.add_artist, ArtistDatabase.insert_or_ignore.
    rewrite Hfault. simpl. split; [|done]. split; [done|].
    by intros (? & ? & _ & ? & _). }
  destruct (ArtistDatabase.has_id (artist_item_id artist) (db_rows (artists_db w))) eqn:E.
  - rewrite add_artist_present by done. simpl. split; [|done]. split; [done|].
    intros (a & r & [= <- <-] & _ & ? & _). congruence.
  - rewrite add_artist_new by done. simpl. split; [|done]. split; [|done].
    intros _. by exists artist, rest.
Qed.

Lemma add_artist_found artist_name artist rest w :
  search artist_name = artist :: rest →
  add_artist search artist_name w
  = let r := ArtistDatabase.add_artist (artist_item_id artist) artist_name
               (artist_item_url artist) w in
    (r.1,
     with_stdout
       (stdout r.2
        ++ [if r.1 then "Adding " +:+ artist_name +:+ " to track..."
            else "Artist " +:+ artist_name +:+ " already exists in database"])
       r.2).
Proof.
  intros Hs. unfold add_artist. rewrite Hs. unfold mbind, M_bind.
  by destruct (ArtistDatabase.add_artist _ _ _ w) as [[] w1].
Qed.

(** X12. Two names that the search resolves to the same artist: on a store
    that works and does not hold that artist, the first [add_artist]
    returns true and stores the first name; the second returns false,
    prints that the artist already exists and leaves the stored row, with
    the first name, as it is. *)
Theorem add_artist_same_artist_twice name1 name2 a1 rest1 a2 rest2 w :
  search name1 = a1 :: rest1 → search name2 = a2 :: rest2 →
  artist_item_id a1 = artist_item_id a2 →
  db_fault (artists_db w) = None →
  ArtistDatabase.has_id (artist_item_id a1) (db_rows (artists_db w)) = false →
  let first := add_artist search name1 w in
  let second := add_artist search name2 first.2 in
  first.1 = true ∧ second.1 = false
  ∧ db_rows (artists_db second.2)
    = db_rows (artists_db w) ++ [ArtistRow (artist_item_id a1) name1 (artist_item_url a1)]
  ∧ stdout second.2
    = stdout w ++ ["Adding " +:+ name1 +:+ " to track...";
                   "Artist " +:+ name2 +:+ " already exists in database"].
Proof.
  intros Hs1 Hs2 Hid Hfault Habsent first second. subst first second.
  rewrite (add_artist_found name1 a1 rest1 w Hs1).
  rewrite (add_artist_new w _ name1 _ Hfault Habsent). cbn [fst snd].
  rewrite (add_artist_found name2 a2 rest2 _ Hs2).
  rewrite add_artist_present; [| done |].
  2:{ simpl. apply has_id_true. rewrite fmap_app, Hid. apply elem_of_app. right.
      apply list_elem_of_here. }
  simpl. by rewrite <- (assoc_L (++)).
Qed.

(** X13. When the store cannot be written, [add_artist] with a name the
    search finds returns false after printing the database error and then
    that the artist already exists, and the table is not changed. *)
Theorem add_artist_store_fault artist_name artist rest e w :
  search artist_name = artist :: rest →
  db_fault (artists_db w) = Some e →
  add_artist search artist_name w
  = (false,
     with_stdout (stdout w ++ ["Database error: " +:+ e;
                               "Artist " +:+ artist_name +:+ " already exists in database"])
                 w).
Proof.
  intros Hs Hfault. rewrite (add_artist_found _ _ _ _ Hs).
  unfold ArtistDatabase.add_artist, ArtistDatabase.insert_or_ignore.
  rewrite Hfault. unfold mbind, M_bind, print, mret, M_ret, with_stdout. simpl.
  by rewrite <- (assoc_L (++)).
Qed.

Lemma main_remove_first_match_run artist_name artists w :
  main_remove_first_match lower artist_name artists w
  = match first_match lower artist_name artists with
    | Some (artist_id, name, _) =>
        (true,
         (print (if (ArtistDatabase.remove_artist artist_id w).1
                 then "Removed " +:+ name else "Failed to remove " +:+ name)
                (ArtistDatabase.remove_artist artist_id w).2).2)
    | None => (false, w)
    end.
Proof.
  unfold first_match. induction artists as [|[[artist_id name] url] artists IH]; [done|].
  simpl. rewrite filter_cons. simpl.
  destruct (String.eqb_spec (lower name) (lower artist_name)) as [Heq|Hne].
  - rewrite decide_True by done. simpl. unfold mbind, M_bind, mret, M_ret.
    destruct (ArtistDatabase.remove_artist artist_id w) as [[] w1]; done.
  - rewrite decide_False by done. apply IH.
Qed.

Lemma filter_filter_ids (rows : list artist_row) (artist_id : string) (targets : list string) :
  filter (λ r, row_id r ≠ artist_id) (filter (λ r, row_id r ∉ targets) rows)
  = filter (λ r, row_id r ∉ targets ++ [artist_id]) rows.
Proof.
  rewrite list_filter_filter. apply list_filter_iff. intros r.
  rewrite elem_of_app, list_elem_of_singleton. split.
  - intros [H1 H2] [H|H]; [by apply H2 | by apply H1].
  - intros H. split; intros H'; apply H; [by right | by left].
Qed.

Lemma filter_no_target (rows : list artist_row) :
  filter (λ r, row_id r ∉ []) rows = rows.
Proof.
  induction rows as [|r rs IH]; [done|].
  rewrite filter_cons, decide_True by apply not_elem_of_nil. by rewrite IH.
Qed.

Lemma removal_targets_cons name names artists :
  removal_targets lower (name :: names) artists
  = (if truthy name
     then match first_match lower name artists with
          | Some a => [a.1.1]
          | None => []
          end
     else [])
    ++ removal_targets lower names artists.
Proof.
  unfold removal_targets. simpl. destruct (truthy name); [|done].
  by destruct (first_match lower name artists).
Qed.

(** X14. Choice 4 on a store that works removes, for each name typed that
    is not empty, the first artist of the listing read at the start whose
    name matches it up to [lower], and nothing else: the rows left are the
    rows whose id is not one of these. *)
Theorem main_remove_artists_rows artist_names w :
  db_fault (artists_db w) = None →
  db_rows (artists_db (main_remove_artists lower artist_names w).2)
  = filter (λ r, row_id r ∉ removal_targets lower artist_names
                               (listing (db_rows (artists_db w))))
           (db_rows (artists_db w)).
Proof.
  intros Hfault. unfold main_remove_artists, mbind at 1, M_bind at 1.
  unfold ArtistDatabase.get_all_artists, ArtistDatabase.select_all. rewrite Hfault.
  fold (listing (db_rows (artists_db w))).
  set (artists := listing (db_rows (artists_db w))).
  set (rows := db_rows (artists_db w)).
  enough (∀ names done w',
            db_fault (artists_db w') = None →
            db_rows (artists_db w') = filter (λ r, row_id r ∉ done) rows →
            db_rows (artists_db
              (for_in names (λ artist_name (_ : unit),
                 if negb (truthy artist_name) then mret tt
                 else
                   found ← main_remove_first_match lower artist_name artists;
                   if negb found
                   then print ("Artist '" +:+ artist_name +:+ "' not found")
                   else mret tt) tt w').2)
            = filter (λ r, row_id r ∉ done ++ removal_targets lower names artists) rows)
    as Hloop.
  { apply (Hloop artist_names [] w Hfault). symmetry. apply filter_no_target. }
  clear Hfault. induction names as [|name names IH]; intros done w' Hfault Hrows.
  { simpl. by rewrite app_nil_r. }
  rewrite for_in_cons, removal_targets_cons.
  destruct (truthy name); cbn [negb].
  2:{ by apply IH. }
  unfold mbind, M_bind. rewrite main_remove_first_match_run.
  destruct (first_match lower name artists) as [[[artist_id nm] url]|]; cbn [negb fst snd].
  - rewrite remove_artist_run by done. cbn [fst snd].
    rewrite (assoc_L (++) done [artist_id]). apply IH; [done|]. simpl.
    rewrite Hrows. apply filter_filter_ids.
  - by apply IH.
Qed.

Lemma remove_loop_unmatched artist_names artists w :
  (∀ name, name ∈ artist_names → truthy name = true →
           first_match lower name artists = None) →
  for_in artist_names (λ artist_name (_ : unit),
    if negb (truthy artist_name) then mret tt
    else
      found ← main_remove_first_match lower artist_name artists;
      if negb found
      then print ("Artist '" +:+ artist_name +:+ "' not found")
      else mret tt) tt w
  = (tt,
     with_stdout
       (stdout w ++ ((λ name, "Artist '" +:+ name +:+ "' not found")
                       <$> filter (λ name, truthy name = true) artist_names))
       w).
Proof.
  revert w. induction artist_names as [|name names IH]; intros w Hnone.
  { simpl. unfold mret, M_ret. f_equal. destruct w. unfold with_stdout. simpl.
    by rewrite app_nil_r. }
  rewrite for_in_cons, filter_cons.
  assert (∀ n, n ∈ names → truthy n = true → first_match lower n artists = None)
    as Hnames.
  { intros n Hn. apply Hnone. by apply list_elem_of_further. }
  destruct (truthy name) eqn:Hname; cbn [negb].
  - unfold mbind, M_bind. rewrite main_remove_first_match_run.
    rewrite (Hnone name (list_elem_of_here _ _) Hname). cbn [negb fst snd].
    rewrite IH by done. rewrite decide_True by done.
    unfold print, with_stdout. simpl. by rewrite <- (assoc_L (++)).
  - cbn [fst snd mret M_ret]. rewrite IH by done. by rewrite decide_False.
Qed.

(** X15. On a store that works, when no name typed matches an artist of
    the listing, choice 4 prints that each name that is not empty was not
    found, in the order typed, and changes nothing else. *)
Theorem main_remove_artists_not_found artist_names w :
  db_fault (artists_db w) = None →
  (∀ name, name ∈ artist_names → truthy name = true →
           first_match lower name (listing (db_rows (artists_db w))) = None) →
  main_remove_artists lower artist_names w
  = (tt,
     with_stdout
       (stdout w ++ ((λ name, "Artist '" +:+ name +:+ "' not found")
                       <$> filter (λ name, truthy name = true) artist_names))
       w).
Proof.
  intros Hfault Hnone. unfold main_remove_artists, mbind at 1, M_bind at 1.
  unfold ArtistDatabase.get_all_artists, ArtistDatabase.select_all. rewrite Hfault.
  by apply remove_loop_unmatched.
Qed.

(** X16. When the store cannot be read, choice 4 prints the database
    error and then that each name typed that is not empty was not found,
    whether an artist of that name is stored or not. *)
Theorem main_remove_artists_store_fault artist_names e w :
  db_fault (artists_db w) = Some e →
  main_remove_artists lower artist_names w
  = (tt,
     with_stdout
       (stdout w ++ ("Database error: " +:+ e)
                    :: ((λ name, "Artist '" +:+ name +:+ "' not found")
                          <$> filter (λ name, truthy name = true) artist_names))
       w).
Proof.
  intros Hfault. unfold main_remove_artists, mbind at 1, M_bind at 1.
  unfold ArtistDatabase.get_all_artists, ArtistDatabase.select_all. rewrite Hfault.
  assert ((print ("Database error: " +:+ e)
             ≫= λ _ : (), mret ([] : list (string * string * string))) w
          = ([], with_stdout (stdout w ++ ["Database error: " +:+ e]) w)) as -> by done.
  rewrite remove_loop_unmatched by done.
  unfold with_stdout. simpl. by rewrite <- (assoc_L (++)).
Qed.

(** X17. The listing is read once: on a store that works, when a name that
    matches a stored artist is typed twice (in any case [lower] does not
    tell apart), the artist is removed at the first occurrence and the
    second prints that the removal failed, not that the artist was not
    found. *)
Theorem main_remove_artists_same_name_twice name1 name2 artist_id name url w :
  db_fault (artists_db w) = None →
  truthy name1 = true → truthy name2 = true → lower name1 = lower name2 →
  first_match lower name1 (listing (db_rows (artists_db w))) = Some (artist_id, name, url) →
  main_remove_artists lower [name1; name2] w
  = (tt,
     with_stdout (stdout w ++ ["Removed " +:+ name; "Failed to remove " +:+ name])
       (with_rows (filter (λ r, row_id r ≠ artist_id) (db_rows (artists_db w))) w)).
Proof.
  intros Hfault Ht1 Ht2 Hlower Hmatch.
  assert (first_match lower name2 (listing (db_rows (artists_db w)))
          = Some (artist_id, name, url)) as Hmatch2.
  { rewrite <- Hmatch. unfold first_match. by rewrite Hlower. }
  assert (artist_id ∈ row_id <$> db_rows (artists_db w)) as Hin.
  { unfold first_match in Hmatch. apply head_Some_elem_of in Hmatch.
    apply list_elem_of_filter in Hmatch as [_ Hmatch].
    apply list_elem_of_fmap in Hmatch as (r & [= -> _ _] & Hr).
    by apply list_elem_of_fmap_2. }
  unfold main_remove_artists, mbind at 1, M_bind at 1.
  unfold ArtistDatabase.get_all_artists, ArtistDatabase.select_all. rewrite Hfault.
  fold (listing (db_rows (artists_db w))).
  rewrite !for_in_cons. simpl for_in. rewrite Ht1, Ht2. cbn [negb].
  unfold mbind, M_bind. rewrite !main_remove_first_match_run, Hmatch, Hmatch2.
  cbn [negb fst snd mret M_ret].
  rewrite (remove_artist_run w) by done. cbn [fst snd].
  apply has_id_true in Hin. rewrite Hin.
  rewrite remove_artist_run by done. cbn [fst snd].
  assert (ArtistDatabase.has_id artist_id
            (db_rows (artists_db
               (print ("Removed " +:+ name)
                  (with_rows (filter (λ r, row_id r ≠ artist_id) (db_rows (artists_db w)))
                     w)).2)) = false) as ->.
  { apply has_id_false. simpl.
    intros (r & -> & [Hne _]%list_elem_of_filter)%list_elem_of_fmap. done. }
  f_equal. unfold print, with_stdout, with_rows. simpl.
  rewrite list_filter_filter_l by done. by rewrite <- (assoc_L (++)).
Qed.

Lemma ids_after_add artist_id name url w id :
  db_fault (artists_db w) = None →
  id ∈ row_id <$> db_rows (artists_db (ArtistDatabase.add_artist artist_id name url w).2)
  ↔ id = artist_id ∨ id ∈ row_id <$> db_rows (artists_db w).
Proof.
  intros Hfault.
  destruct (ArtistDatabase.has_id artist_id (db_rows (artists_db w))) eqn:E.
  - rewrite add_artist_present by done. apply has_id_true in E.
    split; [by right | by intros [->|?]].
  - rewrite add_artist_new by done. simpl.
    rewrite fmap_app, elem_of_app. simpl. rewrite list_elem_of_singleton.
    split; (intros [?|?]; [by right | by left]).
Qed.

(** X18. On a store that works, after choice 2 the ids stored are the ids
    stored before and, for each name typed that is not empty and that the
    search finds, the id of its first search result. *)
Theorem main_add_artists_ids artist_names w id :
  db_fault (artists_db w) = None →
  id ∈ row_id <$> db_rows (artists_db (main_add_artists search artist_names w).2)
  ↔ id ∈ row_id <$> db_rows (artists_db w)
    ∨ ∃ name artist rest,
        name ∈ artist_names ∧ truthy name = true
        ∧ search name = artist :: rest ∧ id = artist_item_id artist.
Proof.
  unfold main_add_artists. revert w.
  induction artist_names as [|name names IH]; intros w Hfault.
  { simpl. split; [by left|]. intros [?|(? & ? & ? & []%elem_of_nil & _)]. done. }
  rewrite for_in_cons. cbv beta.
  set (step := (if truthy name
                then added ← add_artist search name;
                     if added : bool then print ("Added " +:+ name)
                     else print ("Failed to add " +:+ name)
                else mret tt) w).
  assert (db_fault (artists_db step.2) = None
          ∧ (id ∈ row_id <$> db_rows (artists_db step.2)
             ↔ id ∈ row_id <$> db_rows (artists_db w)
               ∨ (truthy name = true
                  ∧ ∃ artist rest, search name = artist :: rest
                                   ∧ id = artist_item_id artist)))
    as [Hfault' Hstep].
  { subst step. destruct (truthy name).
    2:{ split; [done|]. simpl. split; [by left | by intros [?|[? _]]]. }
    unfold mbind, M_bind. destruct (search name) as [|artist rest] eqn:Hs.
    - unfold add_artist. rewrite Hs. simpl. split; [done|].
      split; [by left | by intros [?|(_ & ? & ? & ? & _)]].
    - rewrite (add_artist_found name artist rest w Hs). cbn [fst snd].
      pose proof (ids_after_add (artist_item_id artist) name (artist_item_url artist)
                    w id Hfault) as Hids.
      assert (db_fault (artists_db (ArtistDatabase.add_artist (artist_item_id artist)
                                      name (artist_item_url artist) w).2) = None) as Hf.
      { unfold ArtistDatabase.add_artist, ArtistDatabase.insert_or_ignore.
        rewrite Hfault. by destruct (ArtistDatabase.has_id _ _). }
      destruct (ArtistDatabase.add_artist _ _ _ w) as [[] w1]; simpl in *;
        (split; [done|]); rewrite Hids; (split; [intros [->|?]|]).
      all: try by left.
      all: try (right; split; [done|]; by exists artist, rest).
      all: intros [?|(_ & a & r & [= <- <-] & ->)]; [by right | by left]. }
  destruct step as [[] w1]. cbn [fst snd] in *.
  rewrite (IH w1 Hfault'), Hstep. split.
  - intros [[?|(Ht & artist & rest & Hs & ->)]|(n & artist & rest & Hn & ?)].
    + by left.
    + right. exists name, artist, rest. split; [apply list_elem_of_here|done].
    + right. exists n, artist, rest. split; [by apply list_elem_of_further|done].
  - intros [?|(n & artist & rest & [->|Hn]%elem_of_cons & Ht & Hs & ->)].
    + by left; left.
    + left; right. split; [done|]. by exists artist, rest.
    + right. by exists n, artist, rest.
Qed.

End MenuFacts.

(** ** [get_new_releases] *)

Lemma concat_pieces_of {A} (n m : nat) (xs : list A) :
  (length xs <= n * m)%nat →
  concat ((λ k, take n (drop (k * n) xs)) <$> seq 0 m) = xs.
Proof.
  revert xs. induction m as [|m IH]; intros xs Hlen.
  - destruct xs; [done|]. simpl in Hlen. lia.
  - rewrite <- cons_seq, <- fmap_S_seq, fmap_cons, <- list_fmap_compose.
    change (concat (?x :: ?l)) with (x ++ concat l).
    change (0 * n)%nat with 0%nat. rewrite drop_0.
    rewrite (list_fmap_ext _ (λ k, take n (drop (k * n) (drop n xs))) (seq 0 m)).
    2:{ intros _ k _. unfold compose. rewrite drop_drop. do 2 f_equal; lia. }
    rewrite IH; [apply take_drop|]. rewrite length_drop. lia.
Qed.

(** The slices [xs[i:i + n]] for [i] in [range(0, len(xs), n)] are [xs] cut
    in consecutive pieces. *)
Lemma concat_chunks {A} (n : nat) (xs : list A) :
  (0 < n)%nat →
  concat ((λ i, slice xs i (i + n)) <$> range 0 (length xs) n) = xs.
Proof.
  intros Hn. unfold range, slice. rewrite <- list_fmap_compose.
  rewrite (list_fmap_ext _ (λ k, take n (drop (k * n) xs)) _).
  2:{ intros _ k _. unfold compose. f_equal. lia. }
  apply concat_pieces_of.
  pose proof (Nat.div_mod_eq (length xs - 0 + n - 1) n).
  pose proof (Nat.mod_upper_bound (length xs - 0 + n - 1) n). lia.
Qed.

Lemma for_in_concat {A S} (ls : list (list A)) (body : A → S → M S) acc w :
  for_in (concat ls) body acc w = for_in ls (λ l acc, for_in l body acc) acc w.
Proof.
  revert acc w. induction ls as [|l ls IH]; intros acc w; [done|].
  change (concat (l :: ls)) with (l ++ concat ls).
  rewrite for_in_app, for_in_cons. apply IH.
Qed.

Lemma for_in_fmap {A B S} (f : A → B) (xs : list A) (body : B → S → M S) acc w :
  for_in (f <$> xs) body acc w = for_in xs (λ x, body (f x)) acc w.
Proof.
  revert acc w. induction xs as [|x xs IH]; intros acc w; [done|].
  rewrite fmap_cons, !for_in_cons. apply IH.
Qed.

(** A loop over the pieces of a list, with the loop over a piece inside,
    is the loop over the list. *)
Lemma for_in_chunks {A S} (n : nat) (xs : list A) (body : A → S → M S) acc w :
  (0 < n)%nat →
  for_in (range 0 (length xs) n) (λ i acc, for_in (slice xs i (i + n)) body acc) acc w
  = for_in xs body acc w.
Proof.
  intros Hn.
  transitivity (for_in (concat ((λ i, slice xs i (i + n)) <$> range 0 (length xs) n))
                  body acc w).
  - by rewrite for_in_concat, for_in_fmap.
  - by rewrite concat_chunks.
Qed.

Lemma filter_in_cons {A} (x : A) xs (test : A → M bool) w :
  filter_in (x :: xs) test w
  = ((if (test x w).1 then [x] else []) ++ (filter_in xs test (test x w).2).1,
     (filter_in xs test (test x w).2).2).
Proof.
  simpl. unfold mbind, M_bind, mret, M_ret.
  destruct (test x w) as [keep w1]. cbn [fst snd].
  destruct (filter_in xs test w1) as [kept w2]. by destruct keep.
Qed.

Lemma quiet_filter_in {A} (xs : list A) (test : A → M bool) :
  (∀ x, quiet (test x)) → quiet (filter_in xs test).
Proof.
  intros Htest. induction xs as [|x xs IH]; simpl.
  - apply quiet_ret.
  - apply quiet_bind; [apply Htest|]. intros keep.
    apply quiet_bind; [apply IH|]. intros kept. apply quiet_ret.
Qed.

Lemma after_week_tests_nil w : after_week_tests [] w = w.
Proof.
  destruct w. unfold after_week_tests, with_stdout, with_ticks. simpl.
  rewrite app_nil_r. f_equal. lia.
Qed.

Lemma after_week_tests_cons al als w :
  after_week_tests (al :: als) w
  = after_week_tests als (is_track_from_current_week (release_date al) w).2.
Proof.
  unfold after_week_tests. rewrite filter_cons.
  destruct (decide (String.length (release_date al) = 4%nat)) as [Hy|Hy].
  { rewrite is_track_from_current_week_year by done. cbn [snd].
    rewrite decide_False.
    2:{ intros [Hp _]. by apply precision_not_year in Hp. }
    destruct w. unfold with_stdout, with_ticks, tick, with_ticks. simpl.
    f_equal. lia. }
  destruct (normalize (release_date al)) as [d|] eqn:Hd.
  - rewrite (is_track_from_current_week_parsed _ d) by done. cbn [snd].
    rewrite decide_False.
    2:{ intros [_ Hn]. congruence. }
    destruct w. unfold with_stdout, with_ticks, tick, with_ticks. simpl.
    f_equal. lia.
  - rewrite is_track_from_current_week_invalid by done. cbn [snd].
    rewrite decide_True.
    2:{ split; [by apply precision_not_year | done]. }
    destruct w. unfold with_stdout, with_ticks, tick, with_ticks. simpl.
    rewrite <- (assoc_L (++)). simpl. f_equal. lia.
Qed.

Lemma after_week_tests_app als1 als2 w :
  after_week_tests (als1 ++ als2) w = after_week_tests als2 (after_week_tests als1 w).
Proof.
  revert w. induction als1 as [|al als1 IH]; intros w.
  - by rewrite after_week_tests_nil.
  - rewrite <- app_comm_cons, !after_week_tests_cons. apply IH.
Qed.

Lemma filter_in_world albums w :
  (filter_in albums (λ al, is_track_from_current_week (release_date al)) w).2
  = after_week_tests albums w.
Proof.
  revert w. induction albums as [|al albums IH]; intros w.
  - by rewrite after_week_tests_nil.
  - rewrite filter_in_cons, after_week_tests_cons. cbn [snd]. apply IH.
Qed.

Lemma filter_in_frozen today albums w :
  frozen today w →
  (filter_in albums (λ al, is_track_from_current_week (release_date al)) w).1
  = filter (λ al, at_time today (is_track_from_current_week (release_date al)) = true)
           albums.
Proof.
  revert w. induction albums as [|al albums IH]; intros w Hw; [done|].
  rewrite filter_in_cons, filter_cons. cbn [fst snd].
  rewrite (is_track_from_current_week_frozen today _ w Hw).
  rewrite IH.
  2:{ apply quiet_frozen; [apply quiet_is_track_from_current_week | done]. }
  destruct (at_time today _) eqn:E.
  - by rewrite decide_True.
  - by rewrite decide_False.
Qed.

Lemma bind_fmap_list {A B C} (f : A → B) (g : B → list C) (xs : list A) :
  (f <$> xs) ≫= g = xs ≫= (λ x, g (f x)).
Proof. induction xs as [|x xs IH]; [done|]. by rewrite fmap_cons, !bind_cons, IH. Qed.

Section NewReleasesFacts.

Variable TRACKS_PER_ARTIST : nat.
Variable self : Tracker.

Abbreviation week_test := (λ al : album, is_track_from_current_week (release_date al)).
Abbreviation track_ids := (album_track_ids TRACKS_PER_ARTIST self).

Lemma album_track_ids_app ids als1 als2 :
  track_ids ids (als1 ++ als2) = track_ids ids als1 ++ track_ids ids als2.
Proof. unfold album_track_ids. apply bind_app. Qed.

(** One artist: the albums are tested in turn, then the ids of the tracks
    of those kept are appended. The early exit on no album kept and the
    cutting of the album ids in twenties change nothing. *)
Lemma get_new_releases_artist_run ids a acc w :
  get_new_releases_artist TRACKS_PER_ARTIST self ids a acc w
  = (acc ++ track_ids ids (filter_in (artist_albums (sp self) a) week_test w).1,
     (filter_in (artist_albums (sp self) a) week_test w).2).
Proof.
  unfold get_new_releases_artist. unfold mbind at 1, M_bind at 1.
  destruct (filter_in _ _ w) as [recent w1]. cbn [fst snd].
  destruct recent as [|al recent].
  { unfold album_track_ids. simpl. by rewrite app_nil_r. }
  cbv beta iota zeta. generalize (al :: recent). clear al recent. intros recent.
  rewrite (for_in_chunks 20 (album_id <$> recent)) by lia.
  rewrite (for_in_append
             (λ aid, track_id <$> filter (λ t, track_artist t ∈ ids)
                                    (take TRACKS_PER_ARTIST (album_tracks (sp self) aid)))).
  { unfold album_track_ids. by rewrite bind_fmap_list. }
  intros aid acc' w'.
  rewrite (for_in_append (λ t, if bool_decide (track_artist t ∈ ids) then [track_id t] else [])).
  2:{ intros t acc'' w''. destruct (bool_decide _); [done|]. by rewrite app_nil_r. }
  do 2 f_equal.
  induction (take TRACKS_PER_ARTIST _) as [|t ts IH]; [done|].
  rewrite bind_cons, filter_cons. rewrite IH.
  destruct (decide (track_artist t ∈ ids)).
  - by rewrite bool_decide_eq_true_2.
  - by rewrite bool_decide_eq_false_2.
Qed.

Lemma quiet_get_new_releases_artist ids a acc :
  quiet (get_new_releases_artist TRACKS_PER_ARTIST self ids a acc).
Proof.
  intros w. rewrite get_new_releases_artist_run. cbn [snd].
  apply (quiet_filter_in _ week_test).
  intros al. apply quiet_is_track_from_current_week.
Qed.

(** The whole loop over the artists, the cutting in twenties undone. *)
Lemma get_new_releases_loop ids w :
  get_new_releases TRACKS_PER_ARTIST self ids w
  = (list_to_set
       (take 50 (for_in ids (get_new_releases_artist TRACKS_PER_ARTIST self ids) [] w).1),
     (for_in ids (get_new_releases_artist TRACKS_PER_ARTIST self ids) [] w).2).
Proof.
  unfold get_new_releases. unfold mbind, M_bind. cbv zeta.
  rewrite (for_in_chunks 20 ids) by lia.
  by destruct (for_in ids _ [] w).
Qed.

Lemma get_new_releases_loop_world ids artists acc w :
  (for_in artists (get_new_releases_artist TRACKS_PER_ARTIST self ids) acc w).2
  = after_week_tests (listed_albums self artists) w.
Proof.
  revert acc w. induction artists as [|a artists IH]; intros acc w.
  - unfold listed_albums. simpl. by rewrite after_week_tests_nil.
  - rewrite for_in_cons, IH, get_new_releases_artist_run. cbn [snd].
    unfold listed_albums. rewrite bind_cons, after_week_tests_app.
    by rewrite filter_in_world.
Qed.

Lemma get_new_releases_loop_frozen today ids artists acc w :
  frozen today w →
  (for_in artists (get_new_releases_artist TRACKS_PER_ARTIST self ids) acc w).1
  = acc ++ track_ids ids
             (filter (λ al, at_time today (week_test al) = true)
                     (listed_albums self artists)).
Proof.
  revert acc w. induction artists as [|a artists IH]; intros acc w Hw.
  - unfold listed_albums, album_track_ids. simpl. by rewrite app_nil_r.
  - rewrite for_in_cons, IH.
    2:{ apply quiet_frozen; [apply quiet_get_new_releases_artist | done]. }
    rewrite get_new_releases_artist_run. cbn [fst].
    rewrite (filter_in_frozen today) by done.
    unfold listed_albums. rewrite bind_cons, filter_app, album_track_ids_app.
    by rewrite (assoc_L (++)).
Qed.

Lemma size_list_to_set_le (l : list string) :
  (size (list_to_set l : gset string) <= length l)%nat.
Proof.
  induction l as [|x l IH]; [done|]. simpl.
  rewrite size_union_alt, size_singleton.
  assert (size ((list_to_set l : gset string) ∖ {[x]}) <= size (list_to_set l : gset string))%nat
    as H by (apply subseteq_size, subseteq_difference_l; done).
  lia.
Qed.

(** X19. Under a clock that does not move, [get_new_releases] returns the
    set of the first 50, in encounter order, of the ids of the tracks,
    among the first [TRACKS_PER_ARTIST] of each album listed for the
    artists and released in the current week, whose first artist is any
    one of the artists given. Cutting the artists and the album ids in
    groups of twenty has no effect on the result. *)
Theorem get_new_releases_frozen today artist_ids w :
  frozen today w →
  (get_new_releases TRACKS_PER_ARTIST self artist_ids w).1
  = list_to_set
      (take 50 (track_ids artist_ids
                  (filter (λ al, at_time today (week_test al) = true)
                          (listed_albums self artist_ids)))).
Proof.
  intros Hw. rewrite get_new_releases_loop. cbn [fst].
  by rewrite (get_new_releases_loop_frozen today) by done.
Qed.

(** X20. Whatever the clock shows, [get_new_releases] reads the clock once
    for each album listed for the artists, prints one warning for each of
    them whose release date cannot be parsed, in the order of the visit,
    and changes nothing else: nothing is written to the store and nothing
    is sent to a playlist. *)
Theorem get_new_releases_world artist_ids w :
  (get_new_releases TRACKS_PER_ARTIST self artist_ids w).2
  = after_week_tests (listed_albums self artist_ids) w.
Proof. rewrite get_new_releases_loop. cbn [snd]. apply get_new_releases_loop_world. Qed.

Lemma is_track_from_current_week_reading rd w :
  clock (is_track_from_current_week rd w).2 = clock w
  ∧ ticks (is_track_from_current_week rd w).2 = S (ticks w).
Proof.
  run. destruct (String.length rd =? 4)%nat; [done|]. by case_match.
Qed.

(** An album the comprehension keeps passed the test at the reading of the
    clock made for it: the album at position [k] is tested at the [k]-th
    reading after those made before. *)
Lemma filter_in_tested_at albums w x :
  x ∈ (filter_in albums week_test w).1 →
  ∃ k, albums !! k = Some x
       ∧ (is_track_from_current_week (release_date x)
            (with_ticks (ticks w + k) w)).1 = true.
Proof.
  revert w. induction albums as [|y albums IH]; intros w.
  - simpl. by intros ?%elem_of_nil.
  - rewrite filter_in_cons. cbn [fst snd]. intros [Hx|Hx]%elem_of_app.
    + destruct (is_track_from_current_week (release_date y) w).1 eqn:E;
        [|by apply elem_of_nil in Hx].
      apply list_elem_of_singleton in Hx as ->. exists 0%nat. split; [done|].
      rewrite <- E. apply is_track_from_current_week_now.
      unfold now. simpl. by rewrite Nat.add_0_r.
    + apply IH in Hx as (k & Hk & Htest). exists (S k). split; [done|].
      rewrite <- Htest. apply is_track_from_current_week_now.
      destruct (is_track_from_current_week_reading (release_date y) w) as [Hc Ht].
      unfold now. simpl. rewrite Hc, Ht. f_equal. lia.
Qed.

Lemma get_new_releases_loop_sound ids artists acc w x :
  x ∈ (for_in artists (get_new_releases_artist TRACKS_PER_ARTIST self ids) acc w).1 →
  x ∈ acc
  ∨ ∃ k al t,
      listed_albums self artists !! k = Some al
      ∧ (is_track_from_current_week (release_date al)
           (with_ticks (ticks w + k) w)).1 = true
      ∧ t ∈ take TRACKS_PER_ARTIST (album_tracks (sp self) (album_id al))
      ∧ track_id t = x
      ∧ track_artist t ∈ ids.
Proof.
  revert acc w. induction artists as [|a artists IH]; intros acc w.
  - simpl. by left.
  - rewrite for_in_cons, get_new_releases_artist_run. cbn [fst snd].
    intros [Hx|(k & al & t & Hk & Htest & Ht & Hid & Hcredit)]%IH.
    + apply elem_of_app in Hx as [Hx|Hx]; [by left|]. right.
      unfold album_track_ids in Hx.
      apply list_elem_of_bind in Hx as (al & Hx & Hal).
      apply list_elem_of_fmap in Hx as (t & -> & Ht).
      apply list_elem_of_filter in Ht as [Hcredit Ht].
      apply filter_in_tested_at in Hal as (k & Hk & Htest).
      exists k, al, t. split; [|done].
      unfold listed_albums. rewrite bind_cons. by apply lookup_app_l_Some.
    + right. exists (length (artist_albums (sp self) a) + k)%nat, al, t.
      split.
      { unfold listed_albums. rewrite bind_cons, lookup_app_r by lia.
        rewrite <- Hk. f_equal. lia. }
      split; [|done]. rewrite <- Htest. apply is_track_from_current_week_now.
      rewrite filter_in_world. unfold now, after_week_tests, with_stdout, with_ticks.
      simpl. f_equal. lia.
Qed.

(** X21. Whatever the clock shows, [get_new_releases] returns at most 50
    ids, and each of them is the id of a track that is among the first
    [TRACKS_PER_ARTIST] of an album listed for one of the artists and is
    credited first to one of the artists; that album, the [k]-th of the
    albums listed in the order of the visit, has a release date that is
    not a year alone and passed the current-week test at the reading of
    the clock made for it, the [k]-th after those made before the call. *)
Theorem get_new_releases_sound artist_ids w :
  (size (get_new_releases TRACKS_PER_ARTIST self artist_ids w).1 <= 50)%nat
  ∧ ∀ id, id ∈ (get_new_releases TRACKS_PER_ARTIST self artist_ids w).1 →
      ∃ k a al t,
        listed_albums self artist_ids !! k = Some al
        ∧ a ∈ artist_ids
        ∧ al ∈ artist_albums (sp self) a
        ∧ t ∈ take TRACKS_PER_ARTIST (album_tracks (sp self) (album_id al))
        ∧ track_id t = id
        ∧ track_artist t ∈ artist_ids
        ∧ precision_of (release_date al) ≠ Year
        ∧ (is_track_from_current_week (release_date al)
             (with_ticks (ticks w + k) w)).1 = true.
Proof.
  rewrite get_new_releases_loop. cbn [fst]. split.
  { etrans; [apply size_list_to_set_le|]. rewrite length_take. lia. }
  intros id Hid. apply elem_of_list_to_set in Hid.
  apply elem_of_take in Hid as (i & Hid & _). apply list_elem_of_lookup_2 in Hid.
  apply get_new_releases_loop_sound in Hid
    as [[]%elem_of_nil|(k & al & t & Hk & Htest & Ht & Htid & Hcredit)].
  assert (al ∈ listed_albums self artist_ids) as Hal by (by eapply list_elem_of_lookup_2).
  unfold listed_albums in Hal. apply list_elem_of_bind in Hal as (a & Hal & Ha).
  exists k, a, al, t. repeat split; try done.
  intros Hy. unfold precision_of in Hy.
  destruct (Nat.eqb_spec (String.length (release_date al)) 4) as [E|E].
  - rewrite is_track_from_current_week_year in Htest by done. done.
  - by destruct (String.length (release_date al) =? 7)%nat.
Qed.

End NewReleasesFacts.

(** ** The order of the ids *)


(** ** The properties at concrete inputs *)

Section ConcreteExtras.

Import Examples MenuExamples.
#[local] Open Scope string_scope.

(** X1, witness: the one artist stored is removed. *)
Lemma remove_artist_reports_presence_witness :
  db_fault (artists_db world_friday) = None
  ∧ (ArtistDatabase.remove_artist "A1" world_friday).1 = true
  ∧ ArtistDatabase.remove_artist "B2" world_friday = (false, world_friday).
Proof.
  split; [reflexivity|].
  pose proof (remove_artist_reports_presence world_friday "A1" eq_refl) as [H1 _].
  pose proof (remove_artist_reports_presence world_friday "B2" eq_refl) as [_ H2].
  split.
  - apply H1. vm_compute. apply list_elem_of_here.
  - apply H2. vm_compute. intros H. apply list_elem_of_singleton in H. discriminate H.
Defined.

(** X2, witness. *)
Lemma add_then_remove_artist_witness :
  db_fault (artists_db world_friday) = None
  ∧ ArtistDatabase.has_id "B2" (db_rows (artists_db world_friday)) = false
  ∧ ArtistDatabase.remove_artist "B2"
      (ArtistDatabase.add_artist "B2" "Band" "https://open.spotify.com/artist/B2"
         world_friday).2
    = (true, world_friday).
Proof.
  split; [reflexivity|]. split; [reflexivity|].
  exact (add_then_remove_artist world_friday "B2" "Band"
           "https://open.spotify.com/artist/B2" eq_refl eq_refl).
Defined.

(** X3, witness. *)
Lemma artist_ids_stay_distinct_witness :
  NoDup (row_id <$> db_rows (artists_db world_friday))
  ∧ NoDup (row_id <$> db_rows
             (artists_db (ArtistDatabase.add_artist "A1" "Again" "" world_friday).2)).
Proof.
  assert (NoDup (row_id <$> db_rows (artists_db world_friday))) as H.
  { refine (bool_decide_unpack _ _). vm_compute. exact I. }
  split; [exact H|].
  exact (proj1 (artist_ids_stay_distinct world_friday "A1" "Again" "" H)).
Defined.

(** X4, witness. *)
Lemma artist_ids_after_witness :
  db_fault (artists_db world_friday) = None
  ∧ "B2" ∈ (ArtistDatabase.get_artist_ids
              (ArtistDatabase.add_artist "B2" "Band" "" world_friday).2).1.
Proof.
  split; [reflexivity|].
  apply (proj1 (artist_ids_after world_friday "B2" "Band" "" eq_refl) "B2").
  by left.
Defined.

(** X5, witness: "T1" is collected and is a track of the artist "A1". *)
Lemma collected_ids_are_candidates_witness :
  "T1" ∈ (update_playlist_collect 30 tracker_two_albums world_friday).1.1
  ∧ ∃ a al t, a ∈ (ArtistDatabase.get_artist_ids world_friday).1
              ∧ al ∈ artist_albums (sp tracker_two_albums) a
              ∧ t ∈ album_tracks (sp tracker_two_albums) (album_id al)
              ∧ track_artist t = a ∧ track_id t = "T1".
Proof.
  assert ("T1" ∈ (update_playlist_collect 30 tracker_two_albums world_friday).1.1) as H.
  { vm_compute. apply list_elem_of_here. }
  split; [exact H|].
  exact (proj1 (collected_ids_are_candidates 30 tracker_two_albums world_friday)
           "T1" (or_introl H)).
Defined.

(** X6, witness: the catalogue holds a release date that is not a date
    and no warning is printed. *)
Lemma update_playlist_prints_two_lines_witness :
  db_fault (artists_db world_friday) = None
  ∧ stdout (update_playlist 30 tracker_bad_date world_friday).2
    = ["Updated New Noise playlist: 1 new songs added";
       "Updated New Noise Archive playlist: 0 new songs added"].
Proof.
  split; [reflexivity|].
  etrans; [exact (proj2 (update_playlist_prints_two_lines 30 tracker_bad_date
                           world_friday eq_refl))|].
  vm_compute. reflexivity.
Defined.

(** X7, witness. *)
Lemma update_playlist_store_fault_witness :
  db_fault (artists_db world_faulty) = Some "unable to open database file"
  ∧ stdout (update_playlist 30 tracker120 world_faulty).2
    = ["Database error: unable to open database file";
       "Updated New Noise playlist: 0 new songs added";
       "Updated New Noise Archive playlist: 0 new songs added"]
  ∧ added_items (update_playlist 30 tracker120 world_faulty).2 = [].
Proof.
  split; [reflexivity|].
  rewrite (update_playlist_store_fault 30 tracker120 world_faulty
             "unable to open database file" eq_refl).
  split; reflexivity.
Defined.

(** X8, witness: with six days the album of ten days ago is not archived. *)
Lemma short_archive_window_witness :
  6 < 7 ∧ (update_playlist_collect 6 tracker_twice world_friday).1.2 = [].
Proof.
  split; [lia|].
  apply (proj1 (short_archive_window 6 tracker_twice world_friday)). lia.
Defined.

(** X9, witness: on Wednesday 8 May 2024 the track "T1" of the album of
    Saturday 4 May is put in neither batch. *)
Lemma week_gap_witness :
  frozen wednesday world_wednesday
  ∧ ("T1" ∉ (update_playlist_collect 30 tracker_two_albums world_wednesday).1.1)
  ∧ ("T1" ∉ (update_playlist_collect 30 tracker_two_albums world_wednesday).1.2).
Proof.
  assert (frozen wednesday world_wednesday) as Hw by (intros n; reflexivity).
  split; [exact Hw|].
  apply (week_gap 30 tracker_two_albums wednesday world_wednesday "T1" Hw).
  intros rd Hrd.
  assert (rd = "2024-05-04") as ->.
  { change (candidates tracker_two_albums (ArtistDatabase.get_artist_ids world_wednesday).1)
      with [("T1", "2024-05-04"); ("T0", "2024-05-04"); ("T7", "2024-04-23")] in Hrd.
    apply elem_of_cons in Hrd as [Hrd|Hrd]; [by injection Hrd|].
    apply elem_of_cons in Hrd as [Hrd|Hrd]; [discriminate Hrd|].
    apply list_elem_of_singleton in Hrd. discriminate Hrd. }
  split; [vm_compute; discriminate|].
  eexists. split; [vm_compute; reflexivity|].
  split; vm_compute; left; reflexivity.
Defined.

(** X11, witness. *)
Lemma add_artist_true_iff_inserted_witness :
  (add_artist search_by_name "Low" world_friday).1 = true
  ∧ ∃ artist rest,
      search_by_name "Low" = artist :: rest
      ∧ db_fault (artists_db world_friday) = None
      ∧ ArtistDatabase.has_id (artist_item_id artist) (db_rows (artists_db world_friday))
        = false
      ∧ db_rows (artists_db (add_artist search_by_name "Low" world_friday).2)
        = (db_rows (artists_db world_friday)
           ++ [ArtistRow (artist_item_id artist) "Low" (artist_item_url artist)])%list.
Proof.
  assert ((add_artist search_by_name "Low" world_friday).1 = true) as H by reflexivity.
  split; [exact H|].
  exact (proj1 (proj1 (add_artist_true_iff_inserted search_by_name "Low" world_friday)) H).
Defined.

(** X12, witness: "Low" then "low", which the search resolves to the same
    artist. *)
Lemma add_artist_same_artist_twice_witness :
  db_fault (artists_db world_friday) = None
  ∧ (add_artist search_by_name "Low" world_friday).1 = true
  ∧ (add_artist search_by_name "low"
       (add_artist search_by_name "Low" world_friday).2).1 = false.
Proof.
  split; [reflexivity|].
  pose proof (add_artist_same_artist_twice search_by_name "Low" "low"
                (ArtistItem "L1" "https://open.spotify.com/artist/L1") []
                (ArtistItem "L1" "https://open.spotify.com/artist/L1")
                [ArtistItem "L2" "https://open.spotify.com/artist/L2"]
                world_friday eq_refl eq_refl eq_refl eq_refl eq_refl)
    as (H1 & H2 & _).
  split; [exact H1 | exact H2].
Defined.

(** X13, witness. *)
Lemma add_artist_store_fault_witness :
  db_fault (artists_db world_faulty) = Some "unable to open database file"
  ∧ add_artist search_by_name "Low" world_faulty
    = (false,
       with_stdout ["Database error: unable to open database file";
                    "Artist Low already exists in database"]
                   world_faulty).
Proof.
  split; [reflexivity|].
  exact (add_artist_store_fault search_by_name "Low"
           (ArtistItem "L1" "https://open.spotify.com/artist/L1") []
           "unable to open database file" world_faulty eq_refl eq_refl).
Defined.

(** X14, witness: the stored artist "A1" typed as "a1". *)
Lemma main_remove_artists_rows_witness :
  db_fault (artists_db world_friday) = None
  ∧ db_rows (artists_db (main_remove_artists lower_ascii ["a1"; ""; "nobody"]
                           world_friday).2) = [].
Proof.
  split; [reflexivity|].
  etrans; [exact (main_remove_artists_rows lower_ascii ["a1"; ""; "nobody"]
                    world_friday eq_refl)|].
  vm_compute. reflexivity.
Defined.

(** X15, witness. *)
Lemma main_remove_artists_not_found_witness :
  db_fault (artists_db world_friday) = None
  ∧ main_remove_artists lower_ascii ["nobody"; ""] world_friday
    = (tt, with_stdout ["Artist 'nobody' not found"] world_friday).
Proof.
  split; [reflexivity|].
  etrans; [apply (main_remove_artists_not_found lower_ascii ["nobody"; ""]
                    world_friday eq_refl)|].
  - intros name Hname Htruthy.
    apply elem_of_cons in Hname as [->|Hname]; [reflexivity|].
    apply list_elem_of_singleton in Hname as ->. discriminate Htruthy.
  - vm_compute. reflexivity.
Defined.

(** X16, witness: the artist "A1" is stored and is reported as not
    found. *)
Lemma main_remove_artists_store_fault_witness :
  db_fault (artists_db world_faulty) = Some "unable to open database file"
  ∧ stdout (main_remove_artists lower_ascii ["A1"] world_faulty).2
    = ["Database error: unable to open database file"; "Artist 'A1' not found"].
Proof.
  split; [reflexivity|].
  rewrite (main_remove_artists_store_fault lower_ascii ["A1"]
             "unable to open database file" world_faulty eq_refl).
  vm_compute. reflexivity.
Defined.

(** X17, witness: "A1" then "a1". *)
Lemma main_remove_artists_same_name_twice_witness :
  db_fault (artists_db world_friday) = None
  ∧ lower_ascii "A1" = lower_ascii "a1"
  ∧ stdout (main_remove_artists lower_ascii ["A1"; "a1"] world_friday).2
    = ["Removed A1"; "Failed to remove A1"].
Proof.
  split; [reflexivity|]. split; [reflexivity|].
  rewrite (main_remove_artists_same_name_twice lower_ascii "A1" "a1" "A1" "A1"
             "https://open.spotify.com" world_friday
             eq_refl eq_refl eq_refl eq_refl eq_refl).
  vm_compute. reflexivity.
Defined.

(** X18, witness. *)
Lemma main_add_artists_ids_witness :
  db_fault (artists_db world_friday) = None
  ∧ "L1" ∈ row_id <$> db_rows (artists_db (main_add_artists search_by_name
                                            ["Low"; ""; "nobody"] world_friday).2).
Proof.
  split; [reflexivity|].
  apply (proj2 (main_add_artists_ids search_by_name ["Low"; ""; "nobody"]
                  world_friday "L1" eq_refl)).
  right. exists "Low", (ArtistItem "L1" "https://open.spotify.com/artist/L1"), [].
  split; [apply list_elem_of_here|]. repeat split; reflexivity.
Defined.

(** X19, witness: on Friday 3 May 2024 the album of Saturday 4 May gives
    its two tracks and the album of 23 April gives none. *)
Lemma get_new_releases_frozen_witness :
  frozen friday world_friday
  ∧ (get_new_releases 10 tracker_two_albums ["A1"] world_friday).1
    = list_to_set ["T1"; "T0"].
Proof.
  assert (frozen friday world_friday) as Hw by (intros n; reflexivity).
  split; [exact Hw|].
  etrans; [exact (get_new_releases_frozen 10 tracker_two_albums friday ["A1"]
                    world_friday Hw)|].
  f_equal.
Defined.

(** X21, witness: a clock that shows Sunday night at its first reading
    and Monday morning afterwards; the album of Saturday 4 May is the
    first listed and is tested at the first reading. *)
Lemma get_new_releases_sound_witness :
  "T1" ∈ (get_new_releases 10 tracker_two_albums ["A1"]
            (world_at clock_over_midnight ["A1"])).1
  ∧ ∃ k a al t,
      listed_albums tracker_two_albums ["A1"] !! k = Some al
      ∧ a ∈ ["A1"]
      ∧ al ∈ artist_albums (sp tracker_two_albums) a
      ∧ t ∈ take 10 (album_tracks (sp tracker_two_albums) (album_id al))
      ∧ track_id t = "T1"
      ∧ track_artist t ∈ ["A1"]
      ∧ precision_of (release_date al) ≠ Year
      ∧ (is_track_from_current_week (release_date al)
           (with_ticks (ticks (world_at clock_over_midnight ["A1"]) + k)
              (world_at clock_over_midnight ["A1"]))).1 = true.
Proof.
  assert ("T1" ∈ (get_new_releases 10 tracker_two_albums ["A1"]
                    (world_at clock_over_midnight ["A1"])).1) as H.
  { refine (bool_decide_unpack _ _). vm_compute. exact I. }
  split; [exact H|].
  exact (proj2 (get_new_releases_sound 10 tracker_two_albums ["A1"]
                  (world_at clock_over_midnight ["A1"])) "T1" H).
Defined.


End ConcreteExtras.
